(** * main-section.tsx: the profile page's card store and grid-span calculator

    A shallow embedding of [src/components/profile/main-section.tsx].  The
    file holds two successive versions of the component; they are embedded
    as the modules [V1] (first version) and [V2] (second version).

    - JavaScript numbers are embedded as exact rationals extended with the
      two infinities and NaN ([number]).  Every operation the component
      applies to numbers (+, -, *, /, Math.ceil, Math.min, Math.max,
      truthiness, ===) is written out with its IEEE special cases; binary64
      rounding of finite results and the sign of zero are not represented.
    - [cards] is a [list CardData]; optional properties are [option]s.
    - [Math.random] and the DOM measurements are inputs of the handlers. *)

From Stdlib Require Import ZArith QArith Qround Lia.
From stdpp Require Import base list strings.

Local Open Scope Z_scope.

(** ** JavaScript numbers *)

Inductive number : Type :=
| Fin (q : Q)
| PosInf
| NegInf
| NaN.

Definition of_Z (z : Z) : number := Fin (inject_Z z).

Definition Qis_zero (q : Q) : bool := Qeq_bool q 0.
Definition Qis_pos (q : Q) : bool := negb (Qle_bool q 0).

Module Js.

(** [!x] is true exactly for 0 and NaN. *)
Definition falsy (x : number) : bool :=
  match x with
  | Fin q => Qis_zero q
  | NaN => true
  | _ => false
  end.

(** [x === y] on numbers: NaN equals nothing. *)
Definition strict_eq (x y : number) : bool :=
  match x, y with
  | Fin a, Fin b => Qeq_bool a b
  | PosInf, PosInf => true
  | NegInf, NegInf => true
  | _, _ => false
  end.

(** [x || d] where [x] is a number or [undefined] ([None]). *)
Definition or_else (x : option number) (d : number) : number :=
  match x with
  | Some v => if falsy v then d else v
  | None => d
  end.

Definition neg (x : number) : number :=
  match x with
  | Fin a => Fin (- a)
  | PosInf => NegInf
  | NegInf => PosInf
  | NaN => NaN
  end.

Definition add (x y : number) : number :=
  match x, y with
  | NaN, _ | _, NaN => NaN
  | Fin a, Fin b => Fin (a + b)
  | PosInf, NegInf | NegInf, PosInf => NaN
  | PosInf, _ | _, PosInf => PosInf
  | NegInf, _ | _, NegInf => NegInf
  end.

Definition sub (x y : number) : number :=
  match x, y with
  | Fin a, Fin b => Fin (a - b)
  | _, _ => add x (neg y)
  end.

(** The sign of an infinity times a finite factor. *)
Definition scale_inf (pos : bool) (a : Q) : number :=
  if Qis_zero a then NaN
  else if Bool.eqb pos (Qis_pos a) then PosInf else NegInf.

Definition mul (x y : number) : number :=
  match x, y with
  | NaN, _ | _, NaN => NaN
  | Fin a, Fin b => Fin (a * b)
  | PosInf, Fin a | Fin a, PosInf => scale_inf true a
  | NegInf, Fin a | Fin a, NegInf => scale_inf false a
  | PosInf, PosInf | NegInf, NegInf => PosInf
  | PosInf, NegInf | NegInf, PosInf => NegInf
  end.

(** Division: a finite non-zero dividend over zero is an infinity of the
    dividend's sign, 0/0 and Infinity/Infinity are NaN. *)
Definition div (x y : number) : number :=
  match x, y with
  | NaN, _ | _, NaN => NaN
  | Fin a, Fin b =>
      if Qis_zero b then
        (if Qis_zero a then NaN else if Qis_pos a then PosInf else NegInf)
      else Fin (a / b)
  | Fin _, _ => Fin 0
  | PosInf, Fin b => if Qle_bool 0 b then PosInf else NegInf
  | NegInf, Fin b => if Qle_bool 0 b then NegInf else PosInf
  | _, _ => NaN
  end.

(** [Math.ceil]. *)
Definition ceil (x : number) : number :=
  match x with
  | Fin a => of_Z (Qceiling a)
  | _ => x
  end.

(** [x <= y]: false as soon as one side is NaN. *)
Definition leb (x y : number) : bool :=
  match x, y with
  | NaN, _ | _, NaN => false
  | NegInf, _ | _, PosInf => true
  | Fin a, Fin b => Qle_bool a b
  | _, _ => false
  end.

(** [Math.min(x, y)] and [Math.max(x, y)]: NaN if either argument is. *)
Definition min (x y : number) : number :=
  match x, y with
  | NaN, _ | _, NaN => NaN
  | _, _ => if leb x y then x else y
  end.

Definition max (x y : number) : number :=
  match x, y with
  | NaN, _ | _, NaN => NaN
  | _, _ => if leb x y then y else x
  end.

End Js.

(** ** The grid configuration and the span calculator (second version) *)

(** [gridSize: { columns: number, gap: number }]. *)
Record GridSize : Type := mkGridSize {
  columns : number;
  gap : number
}.

(** [calculateGridSpan] (lines 419-436).  [parentOffsetWidth] is the value of
    [cardRef.current?.parentElement?.offsetWidth]: [None] when the optional
    chain yields [undefined]. *)
Definition calculateGridSpan (gridSize : GridSize)
    (parentOffsetWidth : option number) (width : number) : number :=
  if Js.falsy (columns gridSize) then of_Z 1
  else
    let containerWidth := Js.or_else parentOffsetWidth (of_Z 0) in
    if Js.strict_eq containerWidth (of_Z 0) then of_Z 1
    else
      let singleColWidth :=
        Js.div
          (Js.sub containerWidth
             (Js.mul (gap gridSize) (Js.sub (columns gridSize) (of_Z 1))))
          (columns gridSize) in
      let span :=
        Js.max (of_Z 1)
          (Js.min (columns gridSize)
             (Js.ceil
                (Js.div (Js.add width (gap gridSize))
                   (Js.add singleColWidth (gap gridSize))))) in
      span.

(** The algorithm of the specification (section 4.2), over the integers and
    the rationals of the standard library:
    1. if columnCount is 0 or containerPixelWidth is 0, the span is 1;
    2. singleColumnWidth = (containerPixelWidth - gapPixels * (columnCount - 1)) / columnCount;
    3. raw span = ceil ((measuredPixelWidth + gapPixels) / (singleColumnWidth + gapPixels));
    4. the raw span clamped to [1, columnCount]. *)
Definition clamp (lo hi x : Z) : Z :=
  if x <? lo then lo else if hi <? x then hi else x.

Definition spec_singleColumnWidth (columnCount gapPixels containerPixelWidth : Z) : Q :=
  ((inject_Z containerPixelWidth
    - inject_Z gapPixels * (inject_Z columnCount - 1)) / inject_Z columnCount)%Q.

Definition spec_rawSpan (columnCount gapPixels containerPixelWidth measuredPixelWidth : Z) : Z :=
  Qceiling
    ((inject_Z measuredPixelWidth + inject_Z gapPixels)
     / (spec_singleColumnWidth columnCount gapPixels containerPixelWidth
        + inject_Z gapPixels))%Q.

Definition spec_gridSpan (columnCount gapPixels containerPixelWidth measuredPixelWidth : Z) : Z :=
  if (columnCount =? 0) || (containerPixelWidth =? 0) then 1
  else clamp 1 columnCount
         (spec_rawSpan columnCount gapPixels containerPixelWidth measuredPixelWidth).

Definition grid (columnCount gapPixels : Z) : GridSize :=
  mkGridSize (of_Z columnCount) (of_Z gapPixels).

(** ** Arrays: [findIndex], [splice] and dnd-kit's [arrayMove] *)

(** [items.findIndex(p)]: the first index whose element satisfies [p], or -1. *)
Definition findIndex {A} (P : A → Prop) `{!∀ x, Decision (P x)} (items : list A) : Z :=
  match list_find P items with
  | Some (i, _) => Z.of_nat i
  | None => -1
  end.

(** [array.splice(start, deleteCount, ...items)] (ECMAScript 23.1.3.31): a
    negative [start] counts from the end, both arguments are clamped to the
    array; the result is the pair of the removed elements and the array after
    the call. *)
Definition splice {A} (array : list A) (start deleteCount : Z) (items : list A)
    : list A * list A :=
  let len := Z.of_nat (length array) in
  let actualStart := if start <? 0 then Z.max (len + start) 0 else Z.min start len in
  let actualDeleteCount := Z.min (Z.max deleteCount 0) (len - actualStart) in
  let s := Z.to_nat actualStart in
  let d := Z.to_nat actualDeleteCount in
  (take d (drop s array), take s array ++ items ++ drop (s + d) array).

(** [arrayMove] of @dnd-kit/sortable:
<<
    const newArray = array.slice();
    newArray.splice(to < 0 ? newArray.length + to : to, 0,
                    newArray.splice(from, 1)[0]);
    return newArray;
>>
    The arguments of the outer call are evaluated left to right, so the
    insertion index is computed on the full array before the inner [splice]
    removes an element.  When the inner [splice] removes nothing, element 0 of
    its result is [undefined] and the returned array holds [undefined]: that
    array is no [T[]] and is embedded as [None]. *)
Definition arrayMove {A} (array : list A) (from to : Z) : option (list A) :=
  let newArray := array in
  let to' := if to <? 0 then Z.of_nat (length newArray) + to else to in
  let '(removed, newArray) := splice newArray from 1 [] in
  match removed with
  | x :: _ => Some (snd (splice newArray to' 0 [x]))
  | [] => None
  end.

(** [generateId] (lines 225 and 635):
    [Math.random().toString(36).substring(2, 9)].  The argument is the text
    [Math.random().toString(36)] of the random draw. *)
Definition generateId (random36 : string) : string := String.substring 2 7 random36.

(** What a handler that may fail leaves behind. *)
Inductive result (A : Type) : Type :=
| Ok (a : A)
| HoldsUndefined
| TypeError.
Arguments Ok {A} a.
Arguments HoldsUndefined {A}.
Arguments TypeError {A}.

(** A drag-end event: [active] is [event.active.id], [over] is the id of
    [event.over], [None] when [event.over] is [null]. *)
Record DragEndEvent : Type := mkDragEnd {
  active : string;
  over : option string
}.

Inductive CardType : Type :=
| twitter | youtube | github | coffee | mastodon | ios.

(** ** First version of the component (lines 1-349) *)

Module V1.

Record CardData : Type := mkCard {
  id : string;
  type : CardType;
  title : string;
  subtitle : option string;
  buttonText : option string;
  buttonUrl : option string;
  imageUrl : option string;
  width : option number;
  height : option number
}.

(** Lines 228-242. *)
Definition initialCards : list CardData :=
  [ mkCard "1" twitter "My Tweeet's" None (Some "Follow") None None None None;
    mkCard "2" youtube "Some Tutorials" None (Some "Subscribe") None None None None;
    mkCard "3" github "Github" None None None None None None;
    mkCard "4" coffee "Buy me a Coffee" None (Some "Support") None None None None;
    mkCard "5" mastodon "Ivory for Mastodon" (Some "by Tapbots") (Some "Get") None
      (Some "/placeholder.svg?height=80&width=150") None None;
    mkCard "6" ios "iOS UI Kit" None None None None None None ].

(** Lines 245-247. *)
Definition handleDeleteCard (cards : list CardData) (id' : string) : list CardData :=
  filter (λ card, id card ≠ id') cards.

(** Lines 250-254: [{ ...card, width, height }]. *)
Definition handleResizeCard (cards : list CardData) (id' : string)
    (width' height' : number) : list CardData :=
  (λ card,
     if decide (id card = id') then
       mkCard (id card) (type card) (title card) (subtitle card) (buttonText card)
         (buttonUrl card) (imageUrl card) (Some width') (Some height')
     else card) <$> cards.

(** Lines 257-268. *)
Definition handleDuplicateCard (cards : list CardData) (random36 : string) : list CardData :=
  match cards with
  | firstCard :: _ =>
      let newCard :=
        mkCard (generateId random36) (type firstCard) (title firstCard +:+ " (Copy)")
          (subtitle firstCard) (buttonText firstCard) (buttonUrl firstCard)
          (imageUrl firstCard) (width firstCard) (height firstCard) in
      cards ++ [newCard]
  | [] => cards
  end.

(** Lines 284-295: [over.id] is read without a null test. *)
Definition handleDragEnd (items : list CardData) (event : DragEndEvent)
    : result (list CardData) :=
  match over event with
  | None => TypeError
  | Some over_id =>
      if decide (active event ≠ over_id) then
        let oldIndex := findIndex (λ item, id item = active event) items in
        let newIndex := findIndex (λ item, id item = over_id) items in
        match arrayMove items oldIndex newIndex with
        | Some items' => Ok items'
        | None => HoldsUndefined
        end
      else Ok items
  end.

End V1.

(** ** Second version of the component (lines 351-786) *)

Module V2.

Record CardData : Type := mkCard {
  id : string;
  type : CardType;
  title : string;
  subtitle : option string;
  buttonText : option string;
  buttonUrl : option string;
  imageUrl : option string;
  width : option number;
  height : option number;
  gridColumn : option number;
  gridRow : option number
}.

(** Lines 666-681. *)
Definition initialCards : list CardData :=
  [ mkCard "1" twitter "My Tweeet's" None (Some "Follow") None None None None
      (Some (of_Z 1)) None;
    mkCard "2" youtube "Some Tutorials" None (Some "Subscribe") None None None None
      (Some (of_Z 1)) None;
    mkCard "3" github "Github" None None None None None None (Some (of_Z 1)) None;
    mkCard "4" coffee "Buy me a Coffee" None (Some "Support") None None None None
      (Some (of_Z 1)) None;
    mkCard "5" mastodon "Ivory for Mastodon" (Some "by Tapbots") (Some "Get") None
      (Some "/placeholder.svg?height=80&width=150") None None (Some (of_Z 1)) None;
    mkCard "6" ios "iOS UI Kit" None None None None None None (Some (of_Z 1)) None ].

(** Lines 684-686. *)
Definition handleDeleteCard (cards : list CardData) (id' : string) : list CardData :=
  filter (λ card, id card ≠ id') cards.

(** Lines 689-693: [{ ...card, width, height, gridColumn }]. *)
Definition handleResizeCard (cards : list CardData) (id' : string)
    (width' height' gridColumn' : number) : list CardData :=
  (λ card,
     if decide (id card = id') then
       mkCard (id card) (type card) (title card) (subtitle card) (buttonText card)
         (buttonUrl card) (imageUrl card) (Some width') (Some height')
         (Some gridColumn') (gridRow card)
     else card) <$> cards.

(** Lines 696-707. *)
Definition handleDuplicateCard (cards : list CardData) (random36 : string) : list CardData :=
  match cards with
  | firstCard :: _ =>
      let newCard :=
        mkCard (generateId random36) (type firstCard) (title firstCard +:+ " (Copy)")
          (subtitle firstCard) (buttonText firstCard) (buttonUrl firstCard)
          (imageUrl firstCard) (width firstCard) (height firstCard)
          (gridColumn firstCard) (gridRow firstCard) in
      cards ++ [newCard]
  | [] => cards
  end.

(** Lines 721-732. *)
Definition handleDragEnd (items : list CardData) (event : DragEndEvent)
    : result (list CardData) :=
  match over event with
  | Some over_id =>
      if decide (active event ≠ over_id) then
        let oldIndex := findIndex (λ item, id item = active event) items in
        let newIndex := findIndex (λ item, id item = over_id) items in
        match arrayMove items oldIndex newIndex with
        | Some items' => Ok items'
        | None => HoldsUndefined
        end
      else Ok items
  | None => Ok items
  end.

(** [updateGridSize] (lines 645-653), as a function of [window.innerWidth]. *)
Definition updateGridSize (innerWidth : Z) : GridSize :=
  if 1024 <=? innerWidth then grid 3 16
  else if 640 <=? innerWidth then grid 2 16
  else grid 1 16.

(** What the mouse-up handler reads from the DOM: the card element's
    [offsetWidth] and [offsetHeight] and its parent's [offsetWidth]
    ([None] when the element has no parent). *)
Record Element : Type := mkElement {
  offsetWidth : Z;
  offsetHeight : Z;
  parentOffsetWidth : option Z
}.

(** [handleMouseUp] (lines 472-489) of the card [card_id], composed with the
    [onResize] callback it is given, [handleResizeCard].  [current] is
    [cardRef.current]. *)
Definition handleMouseUp (gridSize : GridSize) (cards : list CardData)
    (card_id : string) (current : option Element) : list CardData :=
  match current with
  | Some el =>
      let newWidth := of_Z (offsetWidth el) in
      let newHeight := of_Z (offsetHeight el) in
      let gridColumn' :=
        calculateGridSpan gridSize (of_Z <$> parentOffsetWidth el) newWidth in
      handleResizeCard cards card_id newWidth newHeight gridColumn'
  | None => cards
  end.

(** The state of [ProfilePage]: the two [useState] cells. *)
Record Page : Type := mkPage {
  gridSize : GridSize;
  cards : list CardData
}.

(** Lines 638-641 and 666-681. *)
Definition initialPage : Page := mkPage (grid 3 16) initialCards.

Inductive Event : Type :=
| WindowResize (innerWidth : Z)
| MouseUp (card_id : string) (current : option Element)
| ClickDelete (card_id : string)
| ClickDuplicate (random36 : string)
| DragEnd (event : DragEndEvent).

Definition step (p : Page) (e : Event) : result Page :=
  match e with
  | WindowResize innerWidth => Ok (mkPage (updateGridSize innerWidth) (cards p))
  | MouseUp card_id current =>
      Ok (mkPage (gridSize p) (handleMouseUp (gridSize p) (cards p) card_id current))
  | ClickDelete card_id => Ok (mkPage (gridSize p) (handleDeleteCard (cards p) card_id))
  | ClickDuplicate random36 =>
      Ok (mkPage (gridSize p) (handleDuplicateCard (cards p) random36))
  | DragEnd event =>
      match handleDragEnd (cards p) event with
      | Ok items => Ok (mkPage (gridSize p) items)
      | HoldsUndefined => HoldsUndefined
      | TypeError => TypeError
      end
  end.

Fixpoint run (p : Page) (events : list Event) : result Page :=
  match events with
  | [] => Ok p
  | e :: events' =>
      match step p e with
      | Ok p' => run p' events'
      | HoldsUndefined => HoldsUndefined
      | TypeError => TypeError
      end
  end.

(** A page state the component can be in: [initialPage] after the events of
    some run. *)
Definition reachable (p : Page) : Prop :=
  ∃ events, run initialPage events = Ok p.

(** The invariant of the data model: every card that has a column span has
    an integer one within [1, columnCount]. *)
Definition span_in_grid (g : GridSize) (card : CardData) : Prop :=
  ∀ s, gridColumn card = Some s →
    ∃ z k : Z, s = of_Z z ∧ columns g = of_Z k ∧ 1 ≤ z ≤ k.

(** No operation of the component writes [gridRow]. *)
Definition has_no_gridRow (card : CardData) : Prop := gridRow card = None.

End V2.

(** ** Relating the card records of the two versions *)

(** A first-version card read as a second-version card: the two properties
    the second version adds are absent. *)
Definition embed (card : V1.CardData) : V2.CardData :=
  V2.mkCard (V1.id card) (V1.type card) (V1.title card) (V1.subtitle card)
    (V1.buttonText card) (V1.buttonUrl card) (V1.imageUrl card)
    (V1.width card) (V1.height card) None None.

(** A second-version card restricted to the properties of the first version. *)
Definition forget (card : V2.CardData) : V1.CardData :=
  V1.mkCard (V2.id card) (V2.type card) (V2.title card) (V2.subtitle card)
    (V2.buttonText card) (V2.buttonUrl card) (V2.imageUrl card)
    (V2.width card) (V2.height card).

(** ** The resize gesture of a card *)

(** The part of a mouse event the handlers read. *)
Record MouseEvent : Type := mkMouse {
  clientX : number;
  clientY : number
}.

(** What the user does to one card: press the resize handle, move the mouse,
    release it.  [current] is [cardRef.current] when the event is handled. *)
Inductive CardEvent : Type :=
| MouseDownOnHandle (e : MouseEvent) (current : option V2.Element)
| DocumentMouseMove (e : MouseEvent) (current : option V2.Element)
| DocumentMouseUp (current : option V2.Element).

(** [SortableCard], first version (lines 29-90). *)
Module V1Card.

(** [isResizing] is the state cell; [initialPos] and [initialSize] are the two
    refs; [liveSize] is the pair of pixel lengths last written to
    [cardRef.current.style.width] and [.height], [None] while no handler has
    written them; [listeners] holds, for every pair of listeners that
    [handleResizeStart] has put on the document and that is still there, the
    value of [isResizing] its closures captured. *)
Record Card : Type := mkCard {
  isResizing : bool;
  initialPos : number * number;
  initialSize : number * number;
  liveSize : option (number * number);
  listeners : list bool
}.

(** Lines 60-71.  [isResizing] is the constant of the render in which
    [handleResizeStart] was created. *)
Definition handleMouseMove (isResizing : bool) (e : MouseEvent)
    (current : option V2.Element) (s : Card) : Card :=
  match current with
  | Some _ =>
      if isResizing then
        let deltaX := Js.sub (clientX e) (fst (initialPos s)) in
        let deltaY := Js.sub (clientY e) (snd (initialPos s)) in
        let newWidth := Js.max (of_Z 150) (Js.add (fst (initialSize s)) deltaX) in
        let newHeight := Js.max (of_Z 150) (Js.add (snd (initialSize s)) deltaY) in
        mkCard (V1Card.isResizing s) (initialPos s) (initialSize s)
          (Some (newWidth, newHeight)) (listeners s)
      else s
  | None => s
  end.

(** Lines 48-90: the state and the refs are set and the two listeners, closed
    over the [isResizing] of this render, are added to the document. *)
Definition handleResizeStart (e : MouseEvent) (current : option V2.Element)
    (s : Card) : Card :=
  match current with
  | Some el =>
      mkCard true (clientX e, clientY e)
        (of_Z (V2.offsetWidth el), of_Z (V2.offsetHeight el))
        (liveSize s) (listeners s ++ [isResizing s])
  | None => s
  end.

(** Lines 73-85, for every pair of listeners on the document: the state is
    reset and the pair removes itself. *)
Definition handleMouseUp (s : Card) : Card :=
  match listeners s with
  | [] => s
  | _ :: _ => mkCard false (initialPos s) (initialSize s) (liveSize s) []
  end.

Definition step (s : Card) (ev : CardEvent) : Card :=
  match ev with
  | MouseDownOnHandle e current => handleResizeStart e current s
  | DocumentMouseMove e current =>
      foldl (λ s' captured, handleMouseMove captured e current s') s (listeners s)
  | DocumentMouseUp _ => handleMouseUp s
  end.

Definition run (s : Card) (events : list CardEvent) : Card := foldl step s events.

(** Lines 73-81 composed with [ProfilePage]'s [handleResizeCard]: what the
    mouse-up listener of card [card_id] does to the store. *)
Definition commit (cards : list V1.CardData) (card_id : string)
    (current : option V2.Element) : list V1.CardData :=
  match current with
  | Some el =>
      V1.handleResizeCard cards card_id
        (of_Z (V2.offsetWidth el)) (of_Z (V2.offsetHeight el))
  | None => cards
  end.

End V1Card.

(** [SortableCard], second version (lines 382-500).  The two document
    listeners are installed by an effect that runs only while [isResizing]
    is true, and read the refs, not a captured state. *)
Module V2Card.

Record Card : Type := mkCard {
  isResizing : bool;
  initialPos : number * number;
  initialSize : number * number;
  liveSize : option (number * number)
}.

(** Lines 439-451. *)
Definition handleResizeStart (e : MouseEvent) (current : option V2.Element)
    (s : Card) : Card :=
  match current with
  | Some el =>
      mkCard true (clientX e, clientY e)
        (of_Z (V2.offsetWidth el), of_Z (V2.offsetHeight el)) (liveSize s)
  | None => s
  end.

(** Lines 458-469. *)
Definition handleMouseMove (e : MouseEvent) (current : option V2.Element)
    (s : Card) : Card :=
  match current with
  | Some _ =>
      let deltaX := Js.sub (clientX e) (fst (initialPos s)) in
      let deltaY := Js.sub (clientY e) (snd (initialPos s)) in
      let newWidth := Js.max (of_Z 150) (Js.add (fst (initialSize s)) deltaX) in
      let newHeight := Js.max (of_Z 150) (Js.add (snd (initialSize s)) deltaY) in
      mkCard (isResizing s) (initialPos s) (initialSize s) (Some (newWidth, newHeight))
  | None => s
  end.

(** Lines 472-473: [setIsResizing(false)]; the call of [onResize] is
    [V2.handleMouseUp]. *)
Definition handleMouseUp (s : Card) : Card :=
  mkCard false (initialPos s) (initialSize s) (liveSize s).

(** Lines 454-500: the listeners are on the document exactly while
    [isResizing] holds. *)
Definition step (s : Card) (ev : CardEvent) : Card :=
  match ev with
  | MouseDownOnHandle e current => handleResizeStart e current s
  | DocumentMouseMove e current =>
      if isResizing s then handleMouseMove e current s else s
  | DocumentMouseUp _ => if isResizing s then handleMouseUp s else s
  end.

Definition run (s : Card) (events : list CardEvent) : Card := foldl step s events.

End V2Card.

(** The DOM reports lengths that are not negative. *)
Definition measured (e : V2.Event) : Prop :=
  match e with
  | V2.MouseUp _ (Some el) => 0 ≤ V2.offsetWidth el
  | _ => True
  end.

(** A column span the component can have committed: an integer from 1 to 3. *)
Definition committed_span (card : V2.CardData) : Prop :=
  ∃ z : Z, V2.gridColumn card = Some (of_Z z) ∧ 1 ≤ z ≤ 3.

(** * Properties *)

(** ** Numbers *)

Section NumberFacts.

Lemma Qis_zero_inject_Z (z : Z) : Qis_zero (inject_Z z) = (z =? 0).
Proof.
  unfold Qis_zero. apply eq_true_iff_eq.
  rewrite Qeq_bool_iff, Z.eqb_eq.
  change 0%Q with (inject_Z 0). apply inject_Z_injective.
Qed.

Lemma Qeq_bool_inject_Z (a b : Z) : Qeq_bool (inject_Z a) (inject_Z b) = (a =? b).
Proof.
  apply eq_true_iff_eq.
  rewrite Qeq_bool_iff, Z.eqb_eq. apply inject_Z_injective.
Qed.

Lemma Qle_bool_inject_Z (a b : Z) : Qle_bool (inject_Z a) (inject_Z b) = (a <=? b).
Proof.
  apply eq_true_iff_eq.
  rewrite Qle_bool_iff, Z.leb_le, <- Zle_Qle. done.
Qed.

Lemma min_of_Z (a b : Z) : Js.min (of_Z a) (of_Z b) = of_Z (Z.min a b).
Proof.
  unfold Js.min, of_Z, Js.leb. rewrite Qle_bool_inject_Z.
  destruct (Z.leb_spec a b).
  - by rewrite Z.min_l.
  - by rewrite Z.min_r by lia.
Qed.

Lemma max_of_Z (a b : Z) : Js.max (of_Z a) (of_Z b) = of_Z (Z.max a b).
Proof.
  unfold Js.max, of_Z, Js.leb. rewrite Qle_bool_inject_Z.
  destruct (Z.leb_spec a b).
  - by rewrite Z.max_r.
  - by rewrite Z.max_l by lia.
Qed.


Lemma clamp_range (lo hi x : Z) : lo ≤ hi → lo ≤ clamp lo hi x ≤ hi.
Proof.
  intros Hle. unfold clamp.
  destruct (Z.ltb_spec x lo); [lia|].
  destruct (Z.ltb_spec hi x); lia.
Qed.

End NumberFacts.

(** ** The span calculator on integer inputs *)

Section GridSpan.

(** Column count, gap, container width and measured width. *)
Variables k g c w : Z.

(** The divisor of step 3 is [(c + g) / k]. *)
Lemma spec_divisor :
  k ≠ 0 →
  ((spec_singleColumnWidth k g c + inject_Z g) * inject_Z k
     == inject_Z (c + g))%Q.
Proof.
  intros Hk. unfold spec_singleColumnWidth.
  rewrite inject_Z_plus. field.
  change 0%Q with (inject_Z 0). rewrite inject_Z_injective. done.
Qed.

Lemma spec_divisor_zero :
  k ≠ 0 →
  Qis_zero (spec_singleColumnWidth k g c + inject_Z g) = (c + g =? 0).
Proof.
  intros Hk. unfold Qis_zero. apply eq_true_iff_eq.
  rewrite Qeq_bool_iff, Z.eqb_eq. split.
  - intros Hz. apply inject_Z_injective.
    rewrite <- spec_divisor by done. rewrite Hz. ring.
  - intros Hz. pose proof (spec_divisor Hk) as Hd. rewrite Hz in Hd.
    apply Qmult_integral in Hd as [Hd|Hd]; [done|].
    exfalso. apply Hk. apply inject_Z_injective. exact Hd.
Qed.

(** The code up to the clamp, when both guards are passed. *)
Lemma calculateGridSpan_unfold :
  k ≠ 0 → c ≠ 0 →
  calculateGridSpan (grid k g) (Some (of_Z c)) (of_Z w)
  = Js.max (of_Z 1)
      (Js.min (of_Z k)
         (Js.ceil
            (Js.div (Fin (inject_Z w + inject_Z g))
               (Fin (spec_singleColumnWidth k g c + inject_Z g))))).
Proof.
  intros Hk Hc. unfold calculateGridSpan, grid, of_Z.
  cbn [columns gap Js.falsy Js.or_else].
  rewrite !Qis_zero_inject_Z.
  destruct (Z.eqb_spec k 0) as [|_]; [done|].
  destruct (Z.eqb_spec c 0) as [|_]; [done|].
  cbn [Js.strict_eq]. rewrite Qeq_bool_inject_Z.
  destruct (Z.eqb_spec c 0) as [|_]; [done|].
  cbn [Js.sub Js.mul Js.add]. unfold Js.div at 2.
  rewrite Qis_zero_inject_Z.
  destruct (Z.eqb_spec k 0) as [|_]; [done|].
  reflexivity.
Qed.

Lemma calculateGridSpan_regular :
  k ≠ 0 → c ≠ 0 → c + g ≠ 0 →
  calculateGridSpan (grid k g) (Some (of_Z c)) (of_Z w)
  = of_Z (Z.max 1 (Z.min k (spec_rawSpan k g c w))).
Proof.
  intros Hk Hc Hcg. rewrite calculateGridSpan_unfold by done.
  unfold Js.div. rewrite spec_divisor_zero by done.
  destruct (Z.eqb_spec (c + g) 0) as [|_]; [done|].
  cbn [Js.ceil]. by rewrite min_of_Z, max_of_Z.
Qed.

(** A divisor that is zero with a positive dividend: the quotient is
    [Infinity] and the clamp returns the column count. *)
Lemma calculateGridSpan_infinite :
  k ≠ 0 → c ≠ 0 → c + g = 0 → 0 < w + g →
  calculateGridSpan (grid k g) (Some (of_Z c)) (of_Z w) = of_Z (Z.max 1 k).
Proof.
  intros Hk Hc Hcg Hpos. rewrite calculateGridSpan_unfold by done.
  unfold Js.div. rewrite spec_divisor_zero by done.
  destruct (Z.eqb_spec (c + g) 0) as [_|]; [|done].
  rewrite <- inject_Z_plus. rewrite Qis_zero_inject_Z.
  destruct (Z.eqb_spec (w + g) 0) as [|_]; [lia|].
  unfold Qis_pos. change 0%Q with (inject_Z 0). rewrite Qle_bool_inject_Z.
  destruct (Z.leb_spec (w + g) 0); [lia|].
  cbn [Js.ceil]. change (Js.min (of_Z k) PosInf) with (of_Z k).
  apply max_of_Z.
Qed.

End GridSpan.

Lemma calculateGridSpan_no_columns (g : Z) (c : option number) (w : number) :
  calculateGridSpan (grid 0 g) c w = of_Z 1.
Proof. reflexivity. Qed.

Lemma calculateGridSpan_unmeasured (gridSize : GridSize) (w : number) :
  calculateGridSpan gridSize None w = of_Z 1.
Proof. unfold calculateGridSpan. by destruct (Js.falsy _). Qed.

Lemma calculateGridSpan_no_container (gridSize : GridSize) (w : number) :
  calculateGridSpan gridSize (Some (of_Z 0)) w = of_Z 1.
Proof. unfold calculateGridSpan. by destruct (Js.falsy _). Qed.


(** The worked example of the specification: a 900px container of 3 columns
    with a 16px gap, and a card measured 900px wide. *)
Example spec_gridSpan_900 : spec_gridSpan 3 16 900 900 = 3.
Proof. vm_compute. reflexivity. Qed.

Example calculateGridSpan_900 :
  calculateGridSpan (grid 3 16) (Some (of_Z 900)) (of_Z 900) = of_Z 3.
Proof. vm_compute. reflexivity. Qed.

Example calculateGridSpan_150 :
  calculateGridSpan (grid 3 16) (Some (of_Z 900)) (of_Z 150) = of_Z 1.
Proof. vm_compute. reflexivity. Qed.




(** With a negative gap the quotient of step 3 can be 0/0, and the value
    returned is NaN. *)
Lemma calculateGridSpan_negative_gap_NaN :
  calculateGridSpan (grid 3 (-16)) (Some (of_Z 16)) (of_Z 16) = NaN.
Proof. vm_compute. reflexivity. Qed.

(** The clamp of lines 430-433 on a grid of at least one column. *)
Lemma calculateGridSpan_bounds (k g w : Z) (c : option Z) :
  0 ≤ w → 1 ≤ k → 0 ≤ g →
  ∃ span : Z,
    calculateGridSpan (grid k g) (of_Z <$> c) (of_Z w) = of_Z span ∧ 1 ≤ span ≤ k.
Proof.
  intros Hw Hk Hg. destruct c as [c|]; cbn [fmap option_fmap option_map].
  - destruct (decide (c = 0)) as [->|Hc0].
    { exists 1. rewrite calculateGridSpan_no_container. split; [done|lia]. }
    destruct (decide (c + g = 0)) as [Hcg|Hcg].
    + exists k.
      rewrite calculateGridSpan_infinite by lia.
      rewrite Z.max_r by lia. split; [done|lia].
    + eexists. rewrite calculateGridSpan_regular by (done || lia).
      split; [done|]. lia.
  - exists 1. rewrite calculateGridSpan_unmeasured. split; [done|lia].
Qed.



(** ** Arrays *)

Section Arrays.

Context {A : Type}.
Implicit Types (l array : list A) (x y : A).

Section FindIndex.

Context (P : A → Prop) `{!∀ x, Decision (P x)}.

Lemma findIndex_first l x rest :
  Forall (λ y, ¬ P y) l → P x →
  findIndex P (l ++ x :: rest) = Z.of_nat (length l).
Proof.
  intros Hl Hx. unfold findIndex.
  rewrite list_find_app_r by by apply list_find_None.
  cbn. by rewrite decide_True.
Qed.

Lemma findIndex_absent l :
  Forall (λ y, ¬ P y) l → findIndex P l = -1.
Proof.
  intros Hl. unfold findIndex. by rewrite (proj2 (list_find_None P l) Hl).
Qed.

Lemma findIndex_bounds l : -1 ≤ findIndex P l < Z.of_nat (length l).
Proof.
  unfold findIndex. destruct (list_find P l) as [[i x]|] eqn:Hf; [|lia].
  apply list_find_Some in Hf as (Hi%lookup_lt_Some & _). lia.
Qed.



End FindIndex.

(** [splice] at an index of the array, in natural numbers. *)
Lemma splice_at l (n : nat) deleteCount items :
  (n ≤ length l)%nat →
  splice l (Z.of_nat n) deleteCount items
  = let d := Z.to_nat (Z.min (Z.max deleteCount 0) (Z.of_nat (length l - n))) in
    (take d (drop n l), take n l ++ items ++ drop (n + d) l).
Proof.
  intros Hn. unfold splice.
  replace (Z.of_nat n <? 0) with false by (symmetry; apply Z.ltb_ge; lia).
  rewrite (Z.min_l (Z.of_nat n)) by lia. rewrite Nat2Z.id.
  by replace (Z.of_nat (length l) - Z.of_nat n) with (Z.of_nat (length l - n)) by lia.
Qed.

Lemma splice_delete_middle l x rest :
  splice (l ++ x :: rest) (Z.of_nat (length l)) 1 [] = ([x], l ++ rest).
Proof.
  rewrite splice_at by (rewrite length_app; lia). cbv zeta.
  replace (Z.to_nat _) with 1%nat by (rewrite length_app; cbn [length]; lia).
  by rewrite take_app_length, drop_app_length, drop_app_add.
Qed.

Lemma splice_insert_middle l rest x :
  splice (l ++ rest) (Z.of_nat (length l)) 0 [x] = ([], l ++ x :: rest).
Proof.
  rewrite splice_at by (rewrite length_app; lia). cbv zeta.
  replace (Z.to_nat _) with 0%nat by lia.
  by rewrite Nat.add_0_r, take_app_length, drop_app_length.
Qed.

(** A source before its target: the cards in between move one place up. *)
Lemma arrayMove_forward l1 x l2 y l3 :
  arrayMove (l1 ++ x :: l2 ++ y :: l3)
    (Z.of_nat (length l1)) (Z.of_nat (length (l1 ++ x :: l2)))
  = Some (l1 ++ l2 ++ y :: x :: l3).
Proof.
  unfold arrayMove. rewrite splice_delete_middle.
  replace (Z.of_nat (length (l1 ++ x :: l2)) <? 0) with false
    by (symmetry; apply Z.ltb_ge; lia).
  replace (length (l1 ++ x :: l2)) with (length (l1 ++ l2 ++ [y]))
    by (rewrite !length_app; cbn; lia).
  replace (l1 ++ l2 ++ y :: l3) with ((l1 ++ l2 ++ [y]) ++ l3)
    by by rewrite <- !(assoc_L (++)).
  rewrite splice_insert_middle. cbn [snd].
  by rewrite <- !(assoc_L (++)).
Qed.

(** A source after its target: the cards in between move one place down. *)
Lemma arrayMove_backward l1 y l2 x l3 :
  arrayMove (l1 ++ y :: l2 ++ x :: l3)
    (Z.of_nat (length (l1 ++ y :: l2))) (Z.of_nat (length l1))
  = Some (l1 ++ x :: y :: l2 ++ l3).
Proof.
  unfold arrayMove.
  replace (l1 ++ y :: l2 ++ x :: l3) with ((l1 ++ y :: l2) ++ x :: l3)
    by by rewrite <- (assoc_L (++)).
  rewrite splice_delete_middle.
  replace (Z.of_nat (length l1) <? 0) with false
    by (symmetry; apply Z.ltb_ge; lia).
  rewrite <- (assoc_L (++)). by rewrite splice_insert_middle.
Qed.

(** Whatever the two indices, an array returned by [arrayMove] is a
    permutation of its argument. *)
Lemma arrayMove_Permutation array from to array' :
  arrayMove array from to = Some array' → array' ≡ₚ array.
Proof.
  unfold arrayMove, splice.
  set (s := Z.to_nat (if from <? 0 then _ else _)).
  set (d := Z.to_nat (Z.min (Z.max 1 0) _)).
  assert (d ≤ 1)%nat as Hd by (subst d; lia).
  destruct (take d (drop s array)) as [|x removed] eqn:Hrem; [done|].
  intros [= <-]. cbn [snd].
  set (rest := take s array ++ [] ++ drop (s + d) array).
  set (s' := Z.to_nat (if _ <? 0 then _ else _)).
  replace (Z.to_nat (Z.min (Z.max 0 0) _)) with 0%nat by lia.
  rewrite Nat.add_0_r. cbn [app].
  rewrite <- Permutation_middle, take_drop. subst rest. cbn [app].
  destruct d as [|[|?]]; [done| |lia].
  destruct (drop s array) as [|x' tail] eqn:Hdrop; [done|].
  injection Hrem as -> _.
  rewrite <- (take_drop s array) at 3. rewrite Hdrop.
  rewrite <- drop_drop, Hdrop. cbn [drop].
  by rewrite <- Permutation_middle.
Qed.

(** [arrayMove] returns an array as soon as its first splice removes an
    element: for every index of the array and for index -1 of an array
    that is not empty. *)
Lemma arrayMove_is_Some array from to :
  array ≠ [] → -1 ≤ from < Z.of_nat (length array) →
  is_Some (arrayMove array from to).
Proof.
  intros Hne Hfrom. unfold arrayMove, splice.
  assert (0 < length array)%nat by (destruct array; [done|cbn; lia]).
  set (s := Z.to_nat (if from <? 0 then _ else _)).
  assert (s < length array)%nat as Hs.
  { subst s. destruct (Z.ltb_spec from 0); lia. }
  set (d := Z.to_nat (Z.min (Z.max 1 0) _)).
  assert (d = 1%nat) as ->.
  { subst d s. destruct (Z.ltb_spec from 0); lia. }
  destruct (lookup_lt_is_Some_2 array s Hs) as [x Hx].
  rewrite (drop_S _ x) by done. by cbn.
Qed.

End Arrays.

(** ** The card store (second version) *)

Section Store.

Import V2.
Implicit Types (cards : list CardData) (card : CardData) (i : string).

(** *** duplicate *)

Lemma handleDuplicateCard_empty random36 : handleDuplicateCard [] random36 = [].
Proof. reflexivity. Qed.

(** What [handleDuplicateCard] does to a store with a first card: every
    card stays in place and one card is appended, a copy of the first card
    but for its title and for its id, which is [generateId ()]. *)
Lemma handleDuplicateCard_appends firstCard rest random36 :
  ∃ newCard,
    handleDuplicateCard (firstCard :: rest) random36 = (firstCard :: rest) ++ [newCard]
    ∧ id newCard = generateId random36
    ∧ title newCard = title firstCard +:+ " (Copy)"
    ∧ type newCard = type firstCard
    ∧ subtitle newCard = subtitle firstCard
    ∧ buttonText newCard = buttonText firstCard
    ∧ buttonUrl newCard = buttonUrl firstCard
    ∧ imageUrl newCard = imageUrl firstCard
    ∧ width newCard = width firstCard
    ∧ height newCard = height firstCard
    ∧ gridColumn newCard = gridColumn firstCard
    ∧ gridRow newCard = gridRow firstCard.
Proof. eexists. split; [reflexivity|]. by split_and!. Qed.

Lemma handleDuplicateCard_length cards random36 :
  cards ≠ [] → length (handleDuplicateCard cards random36) = S (length cards).
Proof.
  destruct cards as [|c rest]; [done|]. intros _.
  unfold handleDuplicateCard. rewrite length_app. cbn. lia.
Qed.

(** C3 (handleDuplicateCard, lines 696-707; generateId, line 635).  The id
    of the duplicate is the first seven base-36 digits of a random draw and
    is not compared with the ids in the store: two draws that share those
    digits give the second duplicate the id of the first. *)
Theorem handleDuplicateCard_id_not_fresh :
  let cards := handleDuplicateCard initialCards "0.k3j9x2a8c1" in
  ∃ newCard,
    handleDuplicateCard cards "0.k3j9x2a11z" = cards ++ [newCard]
    ∧ title newCard = "My Tweeet's (Copy)"
    ∧ id newCard = "k3j9x2a"
    ∧ id newCard ∈ id <$> cards.
Proof.
  cbv zeta. eexists. split; [reflexivity|].
  split; [reflexivity|]. split; [reflexivity|].
  cbn. rewrite !elem_of_cons. do 6 right. by left.
Qed.

(** *** delete *)

Lemma handleDeleteCard_absent cards i :
  Forall (λ card, id card ≠ i) cards → handleDeleteCard cards i = cards.
Proof.
  unfold handleDeleteCard. induction 1 as [|c l Hc _ IH]; [done|].
  rewrite filter_cons_True by done. by rewrite IH.
Qed.

Lemma handleDeleteCard_removes cards i :
  Forall (λ card, id card ≠ i) (handleDeleteCard cards i).
Proof.
  apply Forall_forall. intros c Hc.
  by apply list_elem_of_filter in Hc as [? _].
Qed.

(** Every subsequence of the store without the id is a subsequence of the
    store after the deletion. *)
Lemma handleDeleteCard_greatest cards i kept :
  kept `sublist_of` cards → Forall (λ card, id card ≠ i) kept →
  kept `sublist_of` handleDeleteCard cards i.
Proof.
  unfold handleDeleteCard. induction 1 as [|c l1 l2 _ IH|c l1 l2 _ IH]; intros Hk.
  - constructor.
  - apply Forall_cons in Hk as [Hc Hk].
    rewrite filter_cons_True by done. constructor. by apply IH.
  - rewrite filter_cons. destruct (decide (id c ≠ i)); [|by apply IH].
    apply sublist_cons. by apply IH.
Qed.

(** C6 (handleDeleteCard, lines 684-686).  [delete(id)] keeps, in their
    order, exactly the cards whose id differs: the result is a subsequence
    of the store, holds no card with that id, and every subsequence of the
    store without that id is a subsequence of it; the store is unchanged
    when no card has the id; deleting twice is deleting once; and deleting
    id "3" from the six seed cards leaves the five cards 1, 2, 4, 5, 6. *)
Theorem handleDeleteCard_removes_in_order :
  (∀ cards i,
     handleDeleteCard cards i `sublist_of` cards
     ∧ Forall (λ card, id card ≠ i) (handleDeleteCard cards i)
     ∧ (∀ kept, kept `sublist_of` cards → Forall (λ card, id card ≠ i) kept →
                kept `sublist_of` handleDeleteCard cards i))
  ∧ (∀ cards i,
       Forall (λ card, id card ≠ i) cards → handleDeleteCard cards i = cards)
  ∧ (∀ cards i,
       handleDeleteCard (handleDeleteCard cards i) i = handleDeleteCard cards i)
  ∧ (length (handleDeleteCard initialCards "3") = 5%nat
     ∧ id <$> handleDeleteCard initialCards "3" = ["1"; "2"; "4"; "5"; "6"]
     ∧ handleDeleteCard initialCards "3" `sublist_of` initialCards).
Proof.
  split_and!.
  - intros cards i. split_and!.
    + apply sublist_filter.
    + apply handleDeleteCard_removes.
    + apply handleDeleteCard_greatest.
  - apply handleDeleteCard_absent.
  - intros cards i. apply handleDeleteCard_absent, handleDeleteCard_removes.
  - reflexivity.
  - reflexivity.
  - apply sublist_filter.
Qed.

Lemma handleDeleteCard_removes_in_order_witness :
  Forall (λ card, id card ≠ "7") initialCards
  ∧ handleDeleteCard initialCards "7" = initialCards.
Proof.
  assert (Forall (λ card, id card ≠ "7") initialCards) as H
    by (repeat constructor; done).
  split; [exact H|].
  exact (proj1 (proj2 handleDeleteCard_removes_in_order) initialCards "7" H).
Defined.

(** *** resize *)

Lemma handleResizeCard_lookup cards i w h span (n : nat) :
  handleResizeCard cards i w h span !! n
  = (λ card,
       if decide (id card = i) then
         mkCard (id card) (type card) (title card) (subtitle card) (buttonText card)
           (buttonUrl card) (imageUrl card) (Some w) (Some h) (Some span)
           (gridRow card)
       else card) <$> cards !! n.
Proof. unfold handleResizeCard. by rewrite list_lookup_fmap. Qed.

Lemma handleResizeCard_absent cards i w h span :
  Forall (λ card, id card ≠ i) cards → handleResizeCard cards i w h span = cards.
Proof.
  unfold handleResizeCard. induction 1 as [|c l Hc _ IH]; [done|].
  cbn. rewrite decide_False by done. f_equal. exact IH.
Qed.

(** C5 (handleResizeCard, lines 689-693).  After [resize(id, w, h, span)]
    the store has the same length; at every position, a card with the id
    has width, height and column span [w], [h] and [span] and keeps its id,
    kind, title, subtitle, button label, button url, image url (and row
    span), and a card with another id is unchanged; a store without the id
    is returned unchanged. *)
Theorem handleResizeCard_frame cards i (w h span : number) :
  length (handleResizeCard cards i w h span) = length cards
  ∧ (∀ (n : nat) card, cards !! n = Some card → id card = i →
       ∃ card', handleResizeCard cards i w h span !! n = Some card'
         ∧ width card' = Some w ∧ height card' = Some h
         ∧ gridColumn card' = Some span
         ∧ id card' = id card ∧ type card' = type card
         ∧ title card' = title card ∧ subtitle card' = subtitle card
         ∧ buttonText card' = buttonText card ∧ buttonUrl card' = buttonUrl card
         ∧ imageUrl card' = imageUrl card ∧ gridRow card' = gridRow card)
  ∧ (∀ (n : nat) card, cards !! n = Some card → id card ≠ i →
       handleResizeCard cards i w h span !! n = Some card)
  ∧ (Forall (λ card, id card ≠ i) cards → handleResizeCard cards i w h span = cards).
Proof.
  split_and!.
  - unfold handleResizeCard. apply length_fmap.
  - intros n card Hn Hid. eexists.
    rewrite handleResizeCard_lookup, Hn. cbn.
    rewrite decide_True by done. by split_and!.
  - intros n card Hn Hid.
    rewrite handleResizeCard_lookup, Hn. cbn. by rewrite decide_False.
  - apply handleResizeCard_absent.
Qed.

Lemma handleResizeCard_frame_witness :
  initialCards !! 1%nat = Some (mkCard "2" youtube "Some Tutorials" None
                                  (Some "Subscribe") None None None None
                                  (Some (of_Z 1)) None)
  ∧ ∃ card', handleResizeCard initialCards "2" (of_Z 480) (of_Z 200) (of_Z 2) !! 1%nat
             = Some card'
      ∧ width card' = Some (of_Z 480) ∧ height card' = Some (of_Z 200)
      ∧ gridColumn card' = Some (of_Z 2) ∧ title card' = "Some Tutorials".
Proof.
  split; [reflexivity|].
  destruct (proj1 (proj2 (handleResizeCard_frame initialCards "2"
                            (of_Z 480) (of_Z 200) (of_Z 2)))
              1%nat _ eq_refl eq_refl)
    as (card' & H1 & H2 & H3 & H4 & _ & _ & H5 & _).
  exists card'. by split_and!.
Defined.

End Store.

(** ** Drag and drop (second version) *)

Section Reorder.

Import V2.
Implicit Types (cards : list CardData) (card x y : CardData) (a b : string).



(** The dragged card stands before the card it is dropped on. *)
Lemma handleDragEnd_forward l1 x l2 y l3 :
  id x ≠ id y →
  Forall (λ card, id card ≠ id x ∧ id card ≠ id y) l1 →
  Forall (λ card, id card ≠ id y) l2 →
  handleDragEnd (l1 ++ x :: l2 ++ y :: l3) (mkDragEnd (id x) (Some (id y)))
  = Ok (l1 ++ l2 ++ y :: x :: l3).
Proof.
  intros Hxy Hl1 Hl2. unfold handleDragEnd. cbn [over active].
  rewrite decide_True by done.
  rewrite (findIndex_first (λ item, id item = id x) l1 x);
    [|eapply Forall_impl; [exact Hl1|]; by intros ? [??]|done].
  assert (findIndex (λ item, id item = id y) (l1 ++ x :: l2 ++ y :: l3)
          = Z.of_nat (length (l1 ++ x :: l2))) as ->.
  { change (l1 ++ x :: l2 ++ y :: l3) with (l1 ++ (x :: l2) ++ y :: l3).
    rewrite (assoc_L (++)). apply findIndex_first; [|done].
    apply Forall_app. split.
    - eapply Forall_impl; [exact Hl1|]. by intros ? [??].
    - by constructor. }
  by rewrite arrayMove_forward.
Qed.

(** The dragged card stands after the card it is dropped on. *)
Lemma handleDragEnd_backward l1 y l2 x l3 :
  id x ≠ id y →
  Forall (λ card, id card ≠ id x ∧ id card ≠ id y) l1 →
  Forall (λ card, id card ≠ id x) l2 →
  handleDragEnd (l1 ++ y :: l2 ++ x :: l3) (mkDragEnd (id x) (Some (id y)))
  = Ok (l1 ++ x :: y :: l2 ++ l3).
Proof.
  intros Hxy Hl1 Hl2. unfold handleDragEnd. cbn [over active].
  rewrite decide_True by done.
  rewrite (findIndex_first (λ item, id item = id y) l1 y);
    [|eapply Forall_impl; [exact Hl1|]; by intros ? [??]|done].
  assert (findIndex (λ item, id item = id x) (l1 ++ y :: l2 ++ x :: l3)
          = Z.of_nat (length (l1 ++ y :: l2))) as ->.
  { change (l1 ++ y :: l2 ++ x :: l3) with (l1 ++ (y :: l2) ++ x :: l3).
    rewrite (assoc_L (++)). apply findIndex_first; [|done].
    apply Forall_app. split.
    - eapply Forall_impl; [exact Hl1|]. by intros ? [??].
    - constructor; [congruence|done]. }
  by rewrite arrayMove_backward.
Qed.



(** With a target that is not in the store the dragged card goes last. *)
Lemma handleDragEnd_absent_target_moves_to_end :
  ∃ cards',
    handleDragEnd initialCards (mkDragEnd "2" (Some "zzz")) = Ok cards'
    ∧ id <$> cards' = ["1"; "3"; "4"; "5"; "6"; "2"].
Proof. eexists. split; reflexivity. Qed.


End Reorder.

Section ReorderPermutation.

Import V2.
Implicit Types (cards : list CardData) (card x y : CardData).


Lemma handleDragEnd_Permutation cards event :
  cards ≠ [] →
  ∃ cards', handleDragEnd cards event = Ok cards' ∧ cards' ≡ₚ cards.
Proof.
  intros Hne. unfold handleDragEnd.
  destruct (over event) as [over_id|]; [|by exists cards].
  destruct (decide (active event ≠ over_id)); [|by exists cards].
  destruct (arrayMove_is_Some cards
              (findIndex (λ item, id item = active event) cards)
              (findIndex (λ item, id item = over_id) cards) Hne
              (findIndex_bounds _ cards)) as [cards' Hmove].
  rewrite Hmove. exists cards'. split; [done|].
  by eapply arrayMove_Permutation.
Qed.

(** On a store without cards both indices are -1 and [arrayMove] puts
    [undefined] in the array. *)
Example handleDragEnd_empty_store :
  handleDragEnd [] (mkDragEnd "1" (Some "6")) = HoldsUndefined.
Proof. reflexivity. Qed.

(** C7 (handleDragEnd, lines 721-732).  A drag-end on a store that has
    cards returns a store that is a permutation of the one before, cards
    and ids alike, whatever the two ids of the event; and when the cards of
    [a] and [b] stand next to each other, [reorder(a, b)] followed by
    [reorder(b, a)] gives back the original order. *)
Theorem handleDragEnd_permutes_store :
  (∀ cards event,
     cards ≠ [] →
     ∃ cards', handleDragEnd cards event = Ok cards'
               ∧ cards' ≡ₚ cards ∧ id <$> cards' ≡ₚ id <$> cards
               ∧ length cards' = length cards)
  ∧ (∀ l1 x y l3,
       id x ≠ id y →
       Forall (λ card, id card ≠ id x ∧ id card ≠ id y) l1 →
       (∃ cards',
          handleDragEnd (l1 ++ x :: y :: l3) (mkDragEnd (id x) (Some (id y))) = Ok cards'
          ∧ handleDragEnd cards' (mkDragEnd (id y) (Some (id x)))
            = Ok (l1 ++ x :: y :: l3))
       ∧ (∃ cards',
            handleDragEnd (l1 ++ x :: y :: l3) (mkDragEnd (id y) (Some (id x))) = Ok cards'
            ∧ handleDragEnd cards' (mkDragEnd (id x) (Some (id y)))
              = Ok (l1 ++ x :: y :: l3))).
Proof.
  split.
  - intros cards event Hne.
    destruct (handleDragEnd_Permutation cards event Hne) as (cards' & Hd & Hp).
    exists cards'. split_and!; [done|done|by rewrite Hp|by rewrite Hp].
  - intros l1 x y l3 Hxy Hl1.
    assert (Forall (λ card, id card ≠ id y ∧ id card ≠ id x) l1) as Hl1'.
    { eapply Forall_impl; [exact Hl1|]. by intros ? [??]. }
    split.
    + exists (l1 ++ y :: x :: l3). split.
      * by apply (handleDragEnd_forward l1 x [] y l3).
      * by apply (handleDragEnd_forward l1 y [] x l3).
    + exists (l1 ++ y :: x :: l3). split.
      * by apply (handleDragEnd_backward l1 x [] y l3).
      * by apply (handleDragEnd_backward l1 y [] x l3).
Qed.

Lemma handleDragEnd_permutes_store_witness :
  initialCards ≠ []
  ∧ ∃ cards', handleDragEnd initialCards (mkDragEnd "4" (Some "2")) = Ok cards'
              ∧ cards' ≡ₚ initialCards ∧ id <$> cards' ≡ₚ id <$> initialCards
              ∧ length cards' = length initialCards.
Proof.
  assert (initialCards ≠ []) as H by discriminate.
  split; [exact H|].
  exact (proj1 handleDragEnd_permutes_store initialCards (mkDragEnd "4" (Some "2")) H).
Defined.

End ReorderPermutation.

(** ** The page: resize commits and viewport changes *)

Section PageStates.

Import V2.
Implicit Types (cards : list CardData) (card : CardData) (p : Page).

Lemma of_Z_inj (a b : Z) : of_Z a = of_Z b → a = b.
Proof. unfold of_Z, inject_Z. by intros [= ->]. Qed.

Lemma updateGridSize_columns innerWidth :
  ∃ k, updateGridSize innerWidth = grid k 16 ∧ 1 ≤ k ≤ 3.
Proof.
  unfold updateGridSize.
  destruct (1024 <=? innerWidth); [exists 3; split; [done|lia]|].
  destruct (640 <=? innerWidth); [exists 2|exists 1]; (split; [done|lia]).
Qed.

(** The commit of a resize does establish the invariant for the card it
    resizes, against the grid of that moment. *)
Lemma handleMouseUp_span_in_grid innerWidth cards card_id el card' :
  0 ≤ offsetWidth el →
  card' ∈ handleMouseUp (updateGridSize innerWidth) cards card_id (Some el) →
  id card' = card_id →
  span_in_grid (updateGridSize innerWidth) card'.
Proof.
  intros Hw Hin Hid.
  destruct (updateGridSize_columns innerWidth) as (k & Hg & Hk).
  rewrite Hg in *. clear Hg.
  unfold handleMouseUp, handleResizeCard in Hin.
  apply list_elem_of_fmap in Hin as (card & -> & _).
  destruct (decide (id card = card_id)) as [_|Hne]; [|done].
  intros s [= <-].
  destruct (calculateGridSpan_bounds k 16 (offsetWidth el) (parentOffsetWidth el))
    as (z & Hz & Hrange); [lia..|].
  exists z, k. split; [exact Hz|]. split; [done|lia].
Qed.

(** C8 (updateGridSize, lines 644-663; handleResizeCard, lines 689-693).
    A card resized to 600px in a 720px grid of three columns commits span 3;
    when the window is then made narrower than 640px the grid has one column
    and [updateGridSize] leaves the card's span at 3, outside [1, 1]. *)
Theorem viewport_shrink_leaves_span_outside_grid :
  let events :=
    [ WindowResize 1280;
      MouseUp "1" (Some (mkElement 600 200 (Some 720)));
      WindowResize 500 ] in
  ∃ p card,
    run initialPage events = Ok p
    ∧ reachable p
    ∧ gridSize p = grid 1 16
    ∧ cards p !! 0%nat = Some card
    ∧ id card = "1"
    ∧ gridColumn card = Some (of_Z 3)
    ∧ ¬ span_in_grid (gridSize p) card.
Proof.
  cbv zeta. eexists. eexists.
  split; [vm_compute; reflexivity|].
  split.
  { exists [ WindowResize 1280;
             MouseUp "1" (Some (mkElement 600 200 (Some 720)));
             WindowResize 500 ].
    vm_compute. reflexivity. }
  split; [reflexivity|]. split; [reflexivity|].
  split; [reflexivity|]. split; [reflexivity|].
  intros Hspan. destruct (Hspan (of_Z 3) eq_refl) as (z & k & Hz & Hk & Hrange).
  apply of_Z_inj in Hz. apply of_Z_inj in Hk. lia.
Qed.

(** C9 as stated fails: a committed resize sets the column span and leaves
    the row span of the card absent. *)
Lemma handleMouseUp_leaves_gridRow_absent :
  ∃ card',
    handleMouseUp (grid 3 16) initialCards "1"
      (Some (mkElement 600 200 (Some 720))) !! 0%nat = Some card'
    ∧ id card' = "1"
    ∧ width card' = Some (of_Z 600)
    ∧ gridColumn card' = Some (of_Z 3)
    ∧ gridRow card' = None.
Proof. eexists. split; [vm_compute; reflexivity|]. by split_and!. Qed.

Lemma handleMouseUp_lookup g cards card_id el (n : nat) card :
  cards !! n = Some card →
  ∃ card',
    handleMouseUp g cards card_id (Some el) !! n = Some card'
    ∧ gridRow card' = gridRow card
    ∧ (id card = card_id →
         width card' = Some (of_Z (offsetWidth el))
         ∧ height card' = Some (of_Z (offsetHeight el))
         ∧ gridColumn card'
           = Some (calculateGridSpan g (of_Z <$> parentOffsetWidth el)
                     (of_Z (offsetWidth el))))
    ∧ (id card ≠ card_id → card' = card).
Proof.
  intros Hn. unfold handleMouseUp.
  rewrite handleResizeCard_lookup, Hn. cbn [fmap option_fmap option_map].
  destruct (decide (id card = card_id)) as [Heq|Hne].
  - eexists. split; [done|]. by split_and!.
  - exists card. by split_and!.
Qed.

Lemma step_keeps_gridRow_absent p e p' :
  Forall has_no_gridRow (cards p) → step p e = Ok p' →
  Forall has_no_gridRow (cards p').
Proof.
  intros Hp. destruct e as [w|card_id current|card_id|random36|event]; cbn.
  - by intros [= <-].
  - intros [= <-]. cbn. destruct current as [el|]; [|done].
    unfold handleMouseUp, handleResizeCard. apply Forall_fmap.
    eapply Forall_impl; [exact Hp|]. intros card Hc. cbn.
    by destruct (decide _).
  - intros [= <-]. cbn. apply Forall_forall. intros card Hc.
    apply list_elem_of_filter in Hc as [_ Hc].
    by apply (proj1 (Forall_forall _ _) Hp).
  - intros [= <-]. cbn. unfold handleDuplicateCard.
    destruct (cards p) as [|firstCard rest] eqn:Hcards; [done|].
    apply Forall_app. split; [done|]. constructor; [|done].
    by apply Forall_cons in Hp as [? _].
  - destruct (handleDragEnd (cards p) event) as [items| |] eqn:Hdrag; [|done..].
    intros [= <-]. cbn. unfold handleDragEnd in Hdrag.
    destruct (over event) as [over_id|]; [|by injection Hdrag as <-].
    destruct (decide _); [|by injection Hdrag as <-].
    destruct (arrayMove _ _ _) as [items'|] eqn:Hmove; [|done].
    injection Hdrag as <-. apply arrayMove_Permutation in Hmove.
    by rewrite Hmove.
Qed.

Lemma run_keeps_gridRow_absent events p p' :
  Forall has_no_gridRow (cards p) → run p events = Ok p' →
  Forall has_no_gridRow (cards p').
Proof.
  revert p. induction events as [|e events IH]; intros p Hp; cbn.
  - by intros [= <-].
  - destruct (step p e) as [p1| |] eqn:Hstep; [|done..].
    apply IH. by eapply step_keeps_gridRow_absent.
Qed.

(** C9, amended (handleMouseUp, lines 472-489; handleResizeCard, lines
    689-693).  A committed resize sets the card's width, height and column
    span, the span being [calculateGridSpan] of the measured width, and
    leaves the row span of every card as it was; no operation writes the row
    span, which is absent on every card of every reachable page. *)
Theorem resize_commit_sets_column_span_only :
  (∀ g cards card_id el (n : nat) card,
     cards !! n = Some card →
     ∃ card',
       handleMouseUp g cards card_id (Some el) !! n = Some card'
       ∧ gridRow card' = gridRow card
       ∧ (id card = card_id →
            width card' = Some (of_Z (offsetWidth el))
            ∧ height card' = Some (of_Z (offsetHeight el))
            ∧ gridColumn card'
              = Some (calculateGridSpan g (of_Z <$> parentOffsetWidth el)
                        (of_Z (offsetWidth el))))
       ∧ (id card ≠ card_id → card' = card))
  ∧ (∀ p, reachable p → Forall (λ card, gridRow card = None) (cards p)).
Proof.
  split.
  - intros. by apply handleMouseUp_lookup.
  - intros p [events Hrun].
    apply (run_keeps_gridRow_absent events initialPage p); [|done].
    repeat constructor.
Qed.

Lemma resize_commit_sets_column_span_only_witness :
  reachable (mkPage (grid 3 16)
               (handleMouseUp (grid 3 16) initialCards "1"
                  (Some (mkElement 600 200 (Some 720)))))
  ∧ Forall (λ card, gridRow card = None)
      (handleMouseUp (grid 3 16) initialCards "1"
         (Some (mkElement 600 200 (Some 720)))).
Proof.
  assert (reachable (mkPage (grid 3 16)
                       (handleMouseUp (grid 3 16) initialCards "1"
                          (Some (mkElement 600 200 (Some 720)))))) as H.
  { exists [MouseUp "1" (Some (mkElement 600 200 (Some 720)))]. reflexivity. }
  split; [exact H|].
  exact (proj2 resize_commit_sets_column_span_only _ H).
Defined.

End PageStates.

(** ** The two versions *)

Section Versions.

Lemma embed_delete cards i :
  embed <$> V1.handleDeleteCard cards i = V2.handleDeleteCard (embed <$> cards) i.
Proof.
  unfold V1.handleDeleteCard, V2.handleDeleteCard.
  induction cards as [|card cards IH]; [done|].
  rewrite fmap_cons, !filter_cons. cbn [embed V2.id].
  destruct (decide (V1.id card ≠ i)); [|done].
  by rewrite fmap_cons, IH.
Qed.

Lemma forget_delete cards i :
  forget <$> V2.handleDeleteCard cards i = V1.handleDeleteCard (forget <$> cards) i.
Proof.
  unfold V1.handleDeleteCard, V2.handleDeleteCard.
  induction cards as [|card cards IH]; [done|].
  rewrite fmap_cons, !filter_cons. cbn [forget V1.id].
  destruct (decide (V2.id card ≠ i)); [|done].
  by rewrite fmap_cons, IH.
Qed.

Lemma embed_duplicate cards random36 :
  embed <$> V1.handleDuplicateCard cards random36
  = V2.handleDuplicateCard (embed <$> cards) random36.
Proof.
  destruct cards as [|firstCard rest]; [done|].
  unfold V1.handleDuplicateCard, V2.handleDuplicateCard.
  rewrite fmap_cons, fmap_app. done.
Qed.

Lemma forget_duplicate cards random36 :
  forget <$> V2.handleDuplicateCard cards random36
  = V1.handleDuplicateCard (forget <$> cards) random36.
Proof.
  destruct cards as [|firstCard rest]; [done|].
  unfold V1.handleDuplicateCard, V2.handleDuplicateCard.
  rewrite fmap_cons, fmap_app. done.
Qed.

Lemma forget_embed card : forget (embed card) = card.
Proof. by destruct card. Qed.

(** C10 (handleDeleteCard and handleDuplicateCard, lines 245-268 and
    684-707).  The delete and duplicate handlers of the two versions
    produce the same store: on every first-version store, read as a
    second-version store, the second version's handlers return the first
    version's results, and on every second-version store the first
    version's handlers return the second version's results restricted to
    the properties the first version has; the duplicate made by the second
    version also copies the two spans of the first card. *)
Theorem versions_agree_on_delete_and_duplicate :
  (∀ cards i,
     V2.handleDeleteCard (embed <$> cards) i = embed <$> V1.handleDeleteCard cards i)
  ∧ (∀ cards random36,
       V2.handleDuplicateCard (embed <$> cards) random36
       = embed <$> V1.handleDuplicateCard cards random36)
  ∧ (∀ cards i,
       V1.handleDeleteCard (forget <$> cards) i = forget <$> V2.handleDeleteCard cards i)
  ∧ (∀ cards random36,
       V1.handleDuplicateCard (forget <$> cards) random36
       = forget <$> V2.handleDuplicateCard cards random36)
  ∧ (∀ card, forget (embed card) = card)
  ∧ (∀ firstCard rest random36 newCard,
       last (V2.handleDuplicateCard (firstCard :: rest) random36) = Some newCard →
       V2.gridColumn newCard = V2.gridColumn firstCard
       ∧ V2.gridRow newCard = V2.gridRow firstCard).
Proof.
  split_and!.
  - intros. symmetry. apply embed_delete.
  - intros. symmetry. apply embed_duplicate.
  - intros. symmetry. apply forget_delete.
  - intros. symmetry. apply forget_duplicate.
  - apply forget_embed.
  - intros firstCard rest random36 newCard.
    unfold V2.handleDuplicateCard. rewrite last_snoc. by intros [= <-].
Qed.

Lemma versions_agree_on_delete_and_duplicate_witness :
  last (V2.handleDuplicateCard V2.initialCards "0.k3j9x2a8c1")
  = Some (V2.mkCard "k3j9x2a" twitter "My Tweeet's (Copy)" None (Some "Follow")
            None None None None (Some (of_Z 1)) None)
  ∧ Some (of_Z 1) = V2.gridColumn (V2.mkCard "1" twitter "My Tweeet's" None
                                     (Some "Follow") None None None None
                                     (Some (of_Z 1)) None).
Proof.
  split; [reflexivity|].
  exact (proj1 (proj2 (proj2 (proj2 (proj2 (proj2
                 versions_agree_on_delete_and_duplicate))))
                 (V2.mkCard "1" twitter "My Tweeet's" None (Some "Follow") None None
                    None None (Some (of_Z 1)) None)
                 (tail V2.initialCards) "0.k3j9x2a8c1" _ eq_refl)).
Defined.

End Versions.

(** The drag-end handlers of the two versions differ in the null test of
    [event.over] only. *)
Section VersionsDragEnd.

Lemma findIndex_fmap {A B} (f : A → B) (P : B → Prop) `{!∀ y, Decision (P y)}
    (l : list A) :
  findIndex P (f <$> l) = findIndex (P ∘ f) l.
Proof.
  unfold findIndex. rewrite list_find_fmap.
  by destruct (list_find (P ∘ f) l) as [[i x]|].
Qed.

Lemma splice_fmap {A B} (f : A → B) (l : list A) (start deleteCount : Z)
    (items : list A) :
  splice (f <$> l) start deleteCount (f <$> items)
  = (f <$> (splice l start deleteCount items).1,
     f <$> (splice l start deleteCount items).2).
Proof.
  unfold splice. rewrite length_fmap. cbn [fst snd].
  by rewrite !fmap_app, !fmap_take, !fmap_drop.
Qed.

Lemma arrayMove_fmap {A B} (f : A → B) (l : list A) (from to : Z) :
  arrayMove (f <$> l) from to = (fmap f : list A → list B) <$> arrayMove l from to.
Proof.
  unfold arrayMove. rewrite length_fmap.
  change (@nil B) with (f <$> @nil A). rewrite splice_fmap.
  destruct (splice l from 1 []) as [[|x removed] rest]; [done|].
  cbn [fst snd fmap list_fmap option_fmap option_map].
  change [f x] with (f <$> [x]). by rewrite splice_fmap.
Qed.

Lemma V1_handleDragEnd_no_target cards a :
  V1.handleDragEnd cards (mkDragEnd a None) = TypeError.
Proof. reflexivity. Qed.

Lemma V1_handleDragEnd_target cards a b :
  V2.handleDragEnd (embed <$> cards) (mkDragEnd a (Some b))
  = match V1.handleDragEnd cards (mkDragEnd a (Some b)) with
    | Ok cards' => Ok (embed <$> cards')
    | HoldsUndefined => HoldsUndefined
    | TypeError => TypeError
    end.
Proof.
  unfold V1.handleDragEnd, V2.handleDragEnd. cbn [over active].
  destruct (decide (a ≠ b)); [|done].
  rewrite !findIndex_fmap, arrayMove_fmap.
  change ((λ item, V2.id item = a) ∘ embed) with (λ item, V1.id item = a).
  change ((λ item, V2.id item = b) ∘ embed) with (λ item, V1.id item = b).
  by destruct (arrayMove cards _ _).
Qed.

End VersionsDragEnd.

(** * Further properties *)

(** ** The span calculator as a function of the measured width *)

Section GridSpanShape.

(** A grid of [k >= 1] columns with gap [g >= 0] in a container of width
    [c > 0]. *)
Variables k g c : Z.
Hypothesis Hk : 1 ≤ k.
Hypothesis Hg : 0 ≤ g.
Hypothesis Hc : 0 < c.

Lemma spec_divisor_pos : (0 < spec_singleColumnWidth k g c + inject_Z g)%Q.
Proof.
  apply (Qmult_lt_r _ _ (inject_Z k)).
  - change 0%Q with (inject_Z 0). rewrite <- Zlt_Qlt. lia.
  - rewrite spec_divisor by lia. rewrite Qmult_0_l.
    change 0%Q with (inject_Z 0). rewrite <- Zlt_Qlt. lia.
Qed.

(** The raw span is at most [n] exactly when [k] measured pitches fit in
    [n] container pitches. *)
Lemma spec_rawSpan_le (w n : Z) :
  spec_rawSpan k g c w ≤ n ↔ k * (w + g) ≤ n * (c + g).
Proof.
  unfold spec_rawSpan.
  set (d := (spec_singleColumnWidth k g c + inject_Z g)%Q).
  assert (0 < d)%Q as Hd by apply spec_divisor_pos.
  assert (d * inject_Z k == inject_Z (c + g))%Q as Hdk by (apply spec_divisor; lia).
  assert (0 < inject_Z k)%Q as Hk'
    by (change 0%Q with (inject_Z 0); rewrite <- Zlt_Qlt; lia).
  assert (((inject_Z w + inject_Z g) / d <= inject_Z n)%Q
          ↔ k * (w + g) ≤ n * (c + g)) as Hiff.
  { rewrite (Zle_Qle (k * (w + g))), !inject_Z_mult, <- Hdk, inject_Z_plus.
    split.
    - intros H.
      assert (inject_Z w + inject_Z g <= inject_Z n * d)%Q as H'.
      { apply (Qmult_le_r _ _ (/ d)); [by apply Qinv_lt_0_compat|].
        rewrite <- Qmult_assoc, Qmult_inv_r, Qmult_1_r; [exact H|].
        intros E. rewrite E in Hd. by apply Qlt_irrefl in Hd. }
      rewrite (Qmult_comm (inject_Z k)), Qmult_assoc.
      by apply Qmult_le_r.
    - intros H. apply Qle_shift_div_r; [done|].
      apply (Qmult_le_r _ _ (inject_Z k)); [done|].
      by rewrite (Qmult_comm _ (inject_Z k)), <- Qmult_assoc. }
  rewrite <- Hiff. split.
  - intros H. eapply Qle_trans; [apply Qle_ceiling|]. by rewrite <- Zle_Qle.
  - intros H. apply Qceiling_resp_le in H. by rewrite Qceiling_Z in H.
Qed.

Lemma spec_rawSpan_ge (w n : Z) :
  n ≤ spec_rawSpan k g c w ↔ (n - 1) * (c + g) < k * (w + g).
Proof.
  pose proof (spec_rawSpan_le w (n - 1)) as H. lia.
Qed.

Lemma calculateGridSpan_clamped (w : Z) :
  calculateGridSpan (grid k g) (Some (of_Z c)) (of_Z w)
  = of_Z (Z.max 1 (Z.min k (spec_rawSpan k g c w))).
Proof. apply calculateGridSpan_regular; lia. Qed.

End GridSpanShape.

Lemma calculateGridSpan_iff (k g c w n : Z) :
  1 ≤ k → 0 ≤ g → 0 < c → 1 ≤ n ≤ k →
  calculateGridSpan (grid k g) (Some (of_Z c)) (of_Z w) = of_Z n
  ↔ (n = 1 ∨ (n - 1) * (c + g) < k * (w + g))
    ∧ (n = k ∨ k * (w + g) ≤ n * (c + g)).
Proof.
  intros Hk Hg Hc Hn. rewrite calculateGridSpan_clamped by done.
  pose proof (spec_rawSpan_le k g c Hk Hg Hc w n) as Hle.
  pose proof (spec_rawSpan_ge k g c Hk Hg Hc w n) as Hge.
  split.
  - intros H%of_Z_inj. lia.
  - intros [Hlo Hhi]. f_equal. lia.
Qed.



(** X2 (calculateGridSpan, lines 419-436).  A wider card never gets a smaller
    span: on a grid of at least one column with a non-negative gap in a
    measured container the span grows with the measured width. *)
Theorem calculateGridSpan_monotone (k g c w1 w2 : Z) :
  1 ≤ k → 0 ≤ g → 0 < c → w1 ≤ w2 →
  ∃ span1 span2 : Z,
    calculateGridSpan (grid k g) (Some (of_Z c)) (of_Z w1) = of_Z span1
    ∧ calculateGridSpan (grid k g) (Some (of_Z c)) (of_Z w2) = of_Z span2
    ∧ span1 ≤ span2.
Proof.
  intros Hk Hg Hc Hw. rewrite !calculateGridSpan_clamped by done.
  eexists. eexists. split; [done|]. split; [done|].
  assert (spec_rawSpan k g c w1 ≤ spec_rawSpan k g c w2); [|lia].
  apply spec_rawSpan_le; [done..|].
  pose proof (proj1 (spec_rawSpan_le k g c Hk Hg Hc w2 (spec_rawSpan k g c w2))
                ltac:(lia)) as H2.
  nia.
Qed.

Lemma calculateGridSpan_monotone_witness :
  1 ≤ 3 ∧ 0 ≤ 16 ∧ 0 < 900 ∧ 150 ≤ 700
  ∧ ∃ span1 span2 : Z,
      calculateGridSpan (grid 3 16) (Some (of_Z 900)) (of_Z 150) = of_Z span1
      ∧ calculateGridSpan (grid 3 16) (Some (of_Z 900)) (of_Z 700) = of_Z span2
      ∧ span1 ≤ span2.
Proof.
  split; [lia|]. split; [lia|]. split; [lia|]. split; [lia|].
  apply (calculateGridSpan_monotone 3 16 900 150 700); lia.
Defined.

(** X3 (calculateGridSpan, lines 419-436).  A card at least as wide as its
    container spans every column, and a card no wider than one column (the
    container less the gaps, divided by the column count) spans one. *)
Theorem calculateGridSpan_extremes (k g c w : Z) :
  1 ≤ k → 0 ≤ g → 0 < c →
  (c ≤ w → calculateGridSpan (grid k g) (Some (of_Z c)) (of_Z w) = of_Z k)
  ∧ (k * w ≤ c - g * (k - 1) →
     calculateGridSpan (grid k g) (Some (of_Z c)) (of_Z w) = of_Z 1).
Proof.
  intros Hk Hg Hc. split; intros Hw.
  - apply calculateGridSpan_iff; [lia..|]. split; [|by left].
    right. nia.
  - apply calculateGridSpan_iff; [lia..|]. split; [by left|].
    right. nia.
Qed.

Lemma calculateGridSpan_extremes_witness :
  1 ≤ 3 ∧ 0 ≤ 16 ∧ 0 < 900 ∧ 900 ≤ 1000
  ∧ calculateGridSpan (grid 3 16) (Some (of_Z 900)) (of_Z 1000) = of_Z 3.
Proof.
  split; [lia|]. split; [lia|]. split; [lia|]. split; [lia|].
  apply (proj1 (calculateGridSpan_extremes 3 16 900 1000 ltac:(lia) ltac:(lia) ltac:(lia))).
  lia.
Defined.

(** ** Generated ids *)

Section GeneratedIds.

Lemma length_substring (n m : nat) (s : string) :
  String.length (String.substring n m s) = (m `min` (String.length s - n))%nat.
Proof.
  revert n m. induction s as [|a s IH]; intros n m.
  - destruct n, m; cbn; lia.
  - destruct n as [|n].
    + destruct m as [|m]; cbn; [done|]. rewrite IH. lia.
    + cbn. apply IH.
Qed.

Lemma substring_of_prefix (n m : nat) (s : string) :
  String.substring n m (String.substring 0 (n + m) s) = String.substring n m s.
Proof.
  revert s. induction n as [|n IHn]; intros s.
  - cbn [Nat.add]. revert s. induction m as [|m IHm]; intros s.
    + by destruct s.
    + destruct s as [|a s]; [done|]. cbn. by rewrite IHm.
  - destruct s as [|a s]; [done|]. cbn. apply IHn.
Qed.

(** X4 (generateId, lines 225 and 635).  An id is the text of the random
    draw from its third character on, cut at seven characters: it has seven
    characters when the text has nine or more and fewer otherwise (none when
    the text is "0"), and two draws whose texts agree on their first nine
    characters generate the same id. *)
Theorem generateId_length_and_prefix :
  (∀ random36,
     String.length (generateId random36)
     = (7 `min` (String.length random36 - 2))%nat)
  ∧ (∀ random36 random36',
       String.substring 0 9 random36 = String.substring 0 9 random36' →
       generateId random36 = generateId random36')
  ∧ generateId "0" = "".
Proof.
  split_and!.
  - intros r. apply length_substring.
  - intros r r' H. unfold generateId.
    rewrite <- (substring_of_prefix 2 7 r), <- (substring_of_prefix 2 7 r').
    cbn [Nat.add]. by rewrite H.
  - reflexivity.
Qed.

Lemma generateId_length_and_prefix_witness :
  String.substring 0 9 "0.k3j9x2a8c1" = String.substring 0 9 "0.k3j9x2a11z"
  ∧ generateId "0.k3j9x2a8c1" = generateId "0.k3j9x2a11z".
Proof.
  assert (String.substring 0 9 "0.k3j9x2a8c1" = String.substring 0 9 "0.k3j9x2a11z")
    as H by reflexivity.
  split; [exact H|].
  exact (proj1 (proj2 generateId_length_and_prefix) _ _ H).
Defined.

End GeneratedIds.

(** ** How the store operations compose *)

Section StoreAlgebra.

Import V2.
Implicit Types (cards : list CardData) (card : CardData) (i j : string).

Lemma handleDuplicateCard_ids firstCard rest random36 :
  id <$> handleDuplicateCard (firstCard :: rest) random36
  = (id <$> firstCard :: rest) ++ [generateId random36].
Proof. unfold handleDuplicateCard. by rewrite fmap_app. Qed.

Lemma handleResizeCard_ids cards i (w h span : number) :
  id <$> handleResizeCard cards i w h span = id <$> cards.
Proof.
  unfold handleResizeCard. rewrite <- list_fmap_compose.
  apply list_fmap_ext. intros n card _. cbn. by destruct (decide _).
Qed.

(** X5 (handleDuplicateCard, lines 696-707; handleDeleteCard, lines 684-686).
    Deleting the id [generateId] gave to a duplicate undoes the duplication
    when no card of the store had that id. *)
Theorem duplicate_then_delete cards random36 :
  Forall (λ card, id card ≠ generateId random36) cards →
  handleDeleteCard (handleDuplicateCard cards random36) (generateId random36) = cards.
Proof.
  intros Hfresh. destruct cards as [|firstCard rest]; [done|].
  unfold handleDuplicateCard, handleDeleteCard.
  rewrite filter_app. fold (handleDeleteCard (firstCard :: rest) (generateId random36)).
  rewrite handleDeleteCard_absent by done.
  rewrite filter_cons_False; [by rewrite filter_nil, app_nil_r|].
  cbn. by intros H.
Qed.

Lemma duplicate_then_delete_witness :
  Forall (λ card, id card ≠ generateId "0.k3j9x2a8c1") initialCards
  ∧ handleDeleteCard (handleDuplicateCard initialCards "0.k3j9x2a8c1")
      (generateId "0.k3j9x2a8c1") = initialCards.
Proof.
  assert (Forall (λ card, id card ≠ generateId "0.k3j9x2a8c1") initialCards) as H
    by (repeat constructor; done).
  split; [exact H|]. exact (duplicate_then_delete initialCards "0.k3j9x2a8c1" H).
Defined.

(** X6 (handleDeleteCard, handleResizeCard, handleDuplicateCard,
    handleDragEnd; lines 684-732).  Ids that are unique in the store stay
    unique under delete, resize and a completed drag-end; resize changes no
    id and no position; and after a duplication the ids are unique exactly
    when they were and the generated id was not in the store. *)
Theorem unique_ids_kept :
  (∀ cards i, NoDup (id <$> cards) → NoDup (id <$> handleDeleteCard cards i))
  ∧ (∀ cards i (w h span : number),
       id <$> handleResizeCard cards i w h span = id <$> cards)
  ∧ (∀ cards event cards',
       handleDragEnd cards event = Ok cards' →
       NoDup (id <$> cards) → NoDup (id <$> cards'))
  ∧ (∀ firstCard rest random36,
       NoDup (id <$> handleDuplicateCard (firstCard :: rest) random36)
       ↔ NoDup (id <$> firstCard :: rest)
         ∧ generateId random36 ∉ id <$> firstCard :: rest).
Proof.
  split_and!.
  - intros cards i Hnd. eapply sublist_NoDup; [exact Hnd|].
    apply fmap_sublist, sublist_filter.
  - apply handleResizeCard_ids.
  - intros cards event cards' Hdrag Hnd.
    destruct cards as [|c0 cards0].
    + unfold handleDragEnd in Hdrag. destruct (over event); [|by injection Hdrag as <-].
      destruct (decide _); [done|by injection Hdrag as <-].
    + destruct (handleDragEnd_Permutation (c0 :: cards0) event) as (r & Hr & Hp);
        [done|].
      rewrite Hr in Hdrag. injection Hdrag as <-. by rewrite Hp.
  - intros firstCard rest random36. rewrite handleDuplicateCard_ids.
    rewrite NoDup_app. split.
    + intros (Hnd & Hdisj & _). split; [done|].
      intros Hin. apply (Hdisj _ Hin). apply list_elem_of_here.
    + intros [Hnd Hfresh]. split_and!; [done| |apply NoDup_singleton].
      intros x Hx Hx'. apply list_elem_of_singleton in Hx'. by subst x.
Qed.

Lemma unique_ids_kept_witness :
  NoDup (id <$> initialCards) ∧ NoDup (id <$> handleDeleteCard initialCards "3").
Proof.
  assert (NoDup (id <$> initialCards)) as H.
  { apply (bool_decide_unpack _). vm_compute. exact I. }
  split; [exact H|]. exact (proj1 unique_ids_kept initialCards "3" H).
Defined.

(** X7 (handleDeleteCard, lines 684-686).  In a store of unique ids,
    deleting the id of a card removes that card and no other: the cards
    before it and the cards after it stay, in their order. *)
Theorem handleDeleteCard_unique l1 card l2 :
  NoDup (id <$> l1 ++ card :: l2) →
  handleDeleteCard (l1 ++ card :: l2) (id card) = l1 ++ l2
  ∧ length (handleDeleteCard (l1 ++ card :: l2) (id card))
    = (length (l1 ++ card :: l2) - 1)%nat.
Proof.
  intros Hnd. rewrite fmap_app, fmap_cons in Hnd.
  apply NoDup_app in Hnd as (_ & Hdisj & Hnd2).
  apply NoDup_cons in Hnd2 as [Hnotin _].
  assert (handleDeleteCard (l1 ++ card :: l2) (id card) = l1 ++ l2) as ->.
  { unfold handleDeleteCard. rewrite filter_app, filter_cons_False by (by intros H).
    fold (handleDeleteCard l1 (id card)). fold (handleDeleteCard l2 (id card)).
    rewrite !handleDeleteCard_absent; [done|..].
    - apply Forall_forall. intros c Hc Heq. apply Hnotin.
      rewrite <- Heq. by apply list_elem_of_fmap_2.
    - apply Forall_forall. intros c Hc Heq.
      apply (Hdisj (id c)); [by apply list_elem_of_fmap_2|].
      rewrite Heq. apply list_elem_of_here. }
  split; [done|]. rewrite !length_app. cbn. lia.
Qed.

Lemma handleDeleteCard_unique_witness :
  NoDup (id <$> take 2 initialCards ++ mkCard "3" github "Github" None None None None
                  None None (Some (of_Z 1)) None :: drop 3 initialCards)
  ∧ handleDeleteCard initialCards "3" = take 2 initialCards ++ drop 3 initialCards.
Proof.
  assert (NoDup (id <$> take 2 initialCards
                   ++ mkCard "3" github "Github" None None None None
                        None None (Some (of_Z 1)) None :: drop 3 initialCards)) as H.
  { apply (bool_decide_unpack _). vm_compute. exact I. }
  split; [exact H|]. exact (proj1 (handleDeleteCard_unique _ _ _ H)).
Defined.

(** X8 (handleResizeCard, lines 689-693).  Of two resizes of the same id the
    later one decides, and resizes of two different ids can be done in either
    order. *)
Theorem handleResizeCard_composes :
  (∀ cards i (w h span w' h' span' : number),
     handleResizeCard (handleResizeCard cards i w h span) i w' h' span'
     = handleResizeCard cards i w' h' span')
  ∧ (∀ cards i j (w h span w' h' span' : number),
       i ≠ j →
       handleResizeCard (handleResizeCard cards i w h span) j w' h' span'
       = handleResizeCard (handleResizeCard cards j w' h' span') i w h span).
Proof.
  split.
  - intros. unfold handleResizeCard. rewrite <- list_fmap_compose.
    apply list_fmap_ext. intros n card _. cbn.
    destruct (decide (id card = i)) as [Hi|Hi]; cbn.
    + by rewrite decide_True.
    + by rewrite decide_False.
  - intros cards i j w h span w' h' span' Hij. unfold handleResizeCard.
    rewrite <- !list_fmap_compose.
    apply list_fmap_ext. intros n card _. cbn.
    repeat (case_decide; cbn in *); congruence.
Qed.

Lemma handleResizeCard_composes_witness :
  "1" ≠ "2"
  ∧ handleResizeCard (handleResizeCard initialCards "1" (of_Z 300) (of_Z 200) (of_Z 1))
      "2" (of_Z 600) (of_Z 200) (of_Z 2)
    = handleResizeCard (handleResizeCard initialCards "2" (of_Z 600) (of_Z 200) (of_Z 2))
        "1" (of_Z 300) (of_Z 200) (of_Z 1).
Proof.
  assert ("1" ≠ "2") as H by discriminate.
  split; [exact H|].
  exact (proj2 handleResizeCard_composes initialCards "1" "2" _ _ _ _ _ _ H).
Defined.

(** X9 (handleDeleteCard, lines 684-686; handleResizeCard, lines 689-693).
    Deletions can be done in either order, and a deletion and a resize can be
    done in either order, also when they name the same id. *)
Theorem handleDeleteCard_commutes :
  (∀ cards i j,
     handleDeleteCard (handleDeleteCard cards i) j
     = handleDeleteCard (handleDeleteCard cards j) i)
  ∧ (∀ cards i j (w h span : number),
       handleDeleteCard (handleResizeCard cards i w h span) j
       = handleResizeCard (handleDeleteCard cards j) i w h span).
Proof.
  split.
  - intros cards i j. unfold handleDeleteCard.
    induction cards as [|card cards IH]; [done|].
    rewrite !filter_cons.
    destruct (decide (id card ≠ i)), (decide (id card ≠ j));
      rewrite ?filter_cons_True, ?filter_cons_False by (done || by intros H);
      by rewrite IH.
  - intros cards i j w h span. unfold handleDeleteCard, handleResizeCard.
    induction cards as [|card cards IH]; [done|].
    rewrite fmap_cons, !filter_cons.
    destruct (decide (id card = i)) as [Hi|Hi]; cbn [id];
      destruct (decide (id card ≠ j)); rewrite IH; try done.
    + rewrite fmap_cons. by rewrite decide_True.
    + rewrite fmap_cons. by rewrite decide_False.
Qed.

End StoreAlgebra.

(** ** Drag-end with an id that is not in the store *)

Section MissingIds.

Import V2.
Implicit Types (cards : list CardData) (card x y z : CardData) (a b : string).

Lemma splice_delete_last {A} (l : list A) (x : A) :
  splice (l ++ [x]) (-1) 1 [] = ([x], l).
Proof.
  unfold splice. rewrite length_app. cbn [length].
  change (-1 <? 0) with true. cbv iota.
  replace (Z.to_nat (Z.max _ 0)) with (length l) by lia.
  replace (Z.to_nat (Z.min _ _)) with 1%nat by lia.
  rewrite take_app_length, drop_app_length, drop_app_add. cbn.
  by rewrite app_nil_r.
Qed.

Lemma arrayMove_last_to {A} (l1 : list A) (y : A) (l2 : list A) (z : A) :
  arrayMove (l1 ++ y :: l2 ++ [z]) (-1) (Z.of_nat (length l1))
  = Some (l1 ++ z :: y :: l2).
Proof.
  unfold arrayMove.
  replace (l1 ++ y :: l2 ++ [z]) with ((l1 ++ y :: l2) ++ [z])
    by by rewrite <- (assoc_L (++)).
  rewrite splice_delete_last.
  replace (Z.of_nat (length l1) <? 0) with false by (symmetry; apply Z.ltb_ge; lia).
  by rewrite splice_insert_middle.
Qed.

Lemma splice_insert_end {A} (l : list A) (x : A) :
  splice l (Z.of_nat (length l)) 0 [x] = ([], l ++ [x]).
Proof.
  pose proof (splice_insert_middle l [] x) as H. by rewrite app_nil_r in H.
Qed.

Lemma arrayMove_to_end {A} (l1 : list A) (x : A) (l2 : list A) :
  arrayMove (l1 ++ x :: l2) (Z.of_nat (length l1)) (-1) = Some (l1 ++ l2 ++ [x]).
Proof.
  unfold arrayMove. rewrite splice_delete_middle. change (-1 <? 0) with true. cbv iota.
  replace (Z.of_nat (length (l1 ++ x :: l2)) + -1) with (Z.of_nat (length (l1 ++ l2)))
    by (rewrite !length_app; cbn [length]; lia).
  rewrite splice_insert_end. cbn [snd]. by rewrite <- (assoc_L (++)).
Qed.

Lemma arrayMove_last_to_end {A} (l : list A) (z : A) :
  arrayMove (l ++ [z]) (-1) (-1) = Some (l ++ [z]).
Proof.
  unfold arrayMove. rewrite splice_delete_last. change (-1 <? 0) with true. cbv iota.
  replace (Z.of_nat (length (l ++ [z])) + -1) with (Z.of_nat (length l))
    by (rewrite length_app; cbn [length]; lia).
  by rewrite splice_insert_end.
Qed.

Lemma arrayMove_last_stays {A} (l : list A) (z : A) :
  arrayMove (l ++ [z]) (-1) (Z.of_nat (length l)) = Some (l ++ [z]).
Proof.
  unfold arrayMove. rewrite splice_delete_last.
  replace (Z.of_nat (length l) <? 0) with false by (symmetry; apply Z.ltb_ge; lia).
  by rewrite splice_insert_end.
Qed.

(** X10 (handleDragEnd, lines 721-732).  When the dragged id is in no card
    and the target id is, the last card of the store is put at the position
    of the (first) target card, which moves one place down with the cards
    after it; when the target card is itself the last card the store is
    unchanged. *)
Theorem handleDragEnd_source_missing :
  (∀ l1 y l2 z a,
     id y ≠ a → id z ≠ a →
     Forall (λ card, id card ≠ a ∧ id card ≠ id y) l1 →
     Forall (λ card, id card ≠ a) l2 →
     handleDragEnd (l1 ++ y :: l2 ++ [z]) (mkDragEnd a (Some (id y)))
     = Ok (l1 ++ z :: y :: l2))
  ∧ (∀ l1 y a,
       id y ≠ a →
       Forall (λ card, id card ≠ a ∧ id card ≠ id y) l1 →
       handleDragEnd (l1 ++ [y]) (mkDragEnd a (Some (id y))) = Ok (l1 ++ [y])).
Proof.
  split.
  - intros l1 y l2 z a Hya Hz Hl1 Hl2.
    assert (Forall (λ card, id card ≠ a) l1) as Hl1a
      by (eapply Forall_impl; [exact Hl1|]; by intros ? [??]).
    assert (Forall (λ card, id card ≠ id y) l1) as Hl1y
      by (eapply Forall_impl; [exact Hl1|]; by intros ? [??]).
    unfold handleDragEnd. cbn [over active].
    rewrite decide_True by (by intros H).
    rewrite (findIndex_absent (λ item, id item = a)).
    2:{ apply Forall_app. split; [done|]. constructor; [done|].
        apply Forall_app. split; [done|]. by constructor. }
    rewrite (findIndex_first (λ item, id item = id y) l1 y) by done.
    by rewrite arrayMove_last_to.
  - intros l1 y a Hya Hl1.
    assert (Forall (λ card, id card ≠ a) l1) as Hl1a
      by (eapply Forall_impl; [exact Hl1|]; by intros ? [??]).
    assert (Forall (λ card, id card ≠ id y) l1) as Hl1y
      by (eapply Forall_impl; [exact Hl1|]; by intros ? [??]).
    unfold handleDragEnd. cbn [over active].
    rewrite decide_True by (by intros H).
    rewrite (findIndex_absent (λ item, id item = a))
      by (apply Forall_app; split; [done|by constructor]).
    rewrite (findIndex_first (λ item, id item = id y) l1 y) by done.
    by rewrite arrayMove_last_stays.
Qed.

Lemma handleDragEnd_source_missing_witness :
  "2" ≠ "zzz" ∧ "6" ≠ "zzz"
  ∧ handleDragEnd initialCards (mkDragEnd "zzz" (Some "2"))
    = Ok (take 1 initialCards ++ drop 5 initialCards ++ take 4 (drop 1 initialCards)).
Proof.
  assert ("2" ≠ "zzz") as H2 by discriminate.
  assert ("6" ≠ "zzz") as H6 by discriminate.
  split; [exact H2|]. split; [exact H6|].
  refine (proj1 handleDragEnd_source_missing (take 1 initialCards)
            (mkCard "2" youtube "Some Tutorials" None (Some "Subscribe") None
               None None None (Some (of_Z 1)) None)
            (take 3 (drop 2 initialCards))
            (mkCard "6" ios "iOS UI Kit" None None None None None None
               (Some (of_Z 1)) None) "zzz" H2 H6 _ _).
  - repeat constructor; done.
  - repeat constructor; done.
Defined.

(** X11 (handleDragEnd, lines 721-732).  When the target id is in no card
    and the dragged id is, the (first) dragged card is moved to the end of
    the store; when neither id is in a card of a store that has cards, the
    store is unchanged. *)
Theorem handleDragEnd_target_missing :
  (∀ l1 x l2 b,
     id x ≠ b →
     Forall (λ card, id card ≠ id x ∧ id card ≠ b) l1 →
     Forall (λ card, id card ≠ b) l2 →
     handleDragEnd (l1 ++ x :: l2) (mkDragEnd (id x) (Some b)) = Ok (l1 ++ l2 ++ [x]))
  ∧ (∀ cards a b,
       cards ≠ [] → a ≠ b →
       Forall (λ card, id card ≠ a ∧ id card ≠ b) cards →
       handleDragEnd cards (mkDragEnd a (Some b)) = Ok cards).
Proof.
  split.
  - intros l1 x l2 b Hxb Hl1 Hl2. unfold handleDragEnd. cbn [over active].
    rewrite decide_True by done.
    rewrite (findIndex_first (λ item, id item = id x) l1 x);
      [|eapply Forall_impl; [exact Hl1|]; by intros ? [??]|done].
    rewrite (findIndex_absent (λ item, id item = b)).
    2:{ apply Forall_app. split; [|by constructor].
        eapply Forall_impl; [exact Hl1|]. by intros ? [??]. }
    by rewrite arrayMove_to_end.
  - intros cards a b Hne Hab Hcards. unfold handleDragEnd. cbn [over active].
    rewrite decide_True by done.
    rewrite (findIndex_absent (λ item, id item = a))
      by (eapply Forall_impl; [exact Hcards|]; by intros ? [??]).
    rewrite (findIndex_absent (λ item, id item = b))
      by (eapply Forall_impl; [exact Hcards|]; by intros ? [??]).
    destruct (list.last cards) as [z|] eqn:Hlast.
    + apply last_Some in Hlast as [l ->]. by rewrite arrayMove_last_to_end.
    + apply last_None in Hlast. done.
Qed.

Lemma handleDragEnd_target_missing_witness :
  "2" ≠ "zzz"
  ∧ handleDragEnd initialCards (mkDragEnd "2" (Some "zzz"))
    = Ok (take 1 initialCards ++ drop 2 initialCards ++ take 1 (drop 1 initialCards)).
Proof.
  assert ("2" ≠ "zzz") as H by discriminate.
  split; [exact H|].
  refine (proj1 handleDragEnd_target_missing (take 1 initialCards)
            (mkCard "2" youtube "Some Tutorials" None (Some "Subscribe") None
               None None None (Some (of_Z 1)) None)
            (drop 2 initialCards) "zzz" H _ _).
  - repeat constructor; done.
  - repeat constructor; done.
Defined.

End MissingIds.

(** ** The two versions: resize and drag-end *)

Section VersionsResize.

(** X12 (handleResizeCard, lines 250-254 and 689-693; handleMouseUp, lines
    73-81 and 472-489).  On the properties the first version has, the second
    version's resize is the first version's: the store a committed resize of
    the second version leaves, restricted to those properties, is the store
    the first version's commit leaves, whatever the grid; the column span is
    the only thing the second version adds. *)
Theorem versions_agree_on_resize :
  (∀ cards i (w h span : number),
     forget <$> V2.handleResizeCard cards i w h span
     = V1.handleResizeCard (forget <$> cards) i w h)
  ∧ (∀ g cards i current,
       forget <$> V2.handleMouseUp g cards i current
       = V1Card.commit (forget <$> cards) i current)
  ∧ (∀ cards i (w h : number) (n : nat) card,
       cards !! n = Some card →
       V1.handleResizeCard cards i w h !! n
       = Some (if decide (V1.id card = i)
               then V1.mkCard (V1.id card) (V1.type card) (V1.title card)
                      (V1.subtitle card) (V1.buttonText card) (V1.buttonUrl card)
                      (V1.imageUrl card) (Some w) (Some h)
               else card)).
Proof.
  assert (∀ cards i (w h span : number),
            forget <$> V2.handleResizeCard cards i w h span
            = V1.handleResizeCard (forget <$> cards) i w h) as Hresize.
  { intros. unfold V2.handleResizeCard, V1.handleResizeCard.
    rewrite <- !list_fmap_compose. apply list_fmap_ext. intros n card _. cbn.
    by destruct (decide _). }
  split_and!.
  - exact Hresize.
  - intros g cards i [el|]; [|done]. apply Hresize.
  - intros cards i w h n card Hn. unfold V1.handleResizeCard.
    by rewrite list_lookup_fmap, Hn.
Qed.

(** X13 (handleDragEnd, lines 284-295 and 721-732).  With a drop target the
    drag-end handlers of the two versions do the same to the store; with no
    drop target the first version throws a TypeError where the second leaves
    the store unchanged. *)
Theorem versions_differ_on_missing_drop_target :
  (∀ cards a b,
     V2.handleDragEnd (embed <$> cards) (mkDragEnd a (Some b))
     = match V1.handleDragEnd cards (mkDragEnd a (Some b)) with
       | Ok cards' => Ok (embed <$> cards')
       | HoldsUndefined => HoldsUndefined
       | TypeError => TypeError
       end)
  ∧ (∀ cards a b, V1.handleDragEnd cards (mkDragEnd a (Some b)) ≠ TypeError)
  ∧ (∀ cards a, V1.handleDragEnd cards (mkDragEnd a None) = TypeError)
  ∧ (∀ cards a, V2.handleDragEnd cards (mkDragEnd a None) = Ok cards).
Proof.
  split_and!.
  - apply V1_handleDragEnd_target.
  - intros cards a b. unfold V1.handleDragEnd. cbn [over active].
    destruct (decide _); [|done]. by destruct (arrayMove _ _ _).
  - done.
  - done.
Qed.

End VersionsResize.

(** ** Invariants of the page *)

Section PageInvariants.

Import V2.
Implicit Types (cards : list CardData) (card : CardData) (p : Page).

Lemma handleDragEnd_not_TypeError cards event : handleDragEnd cards event ≠ TypeError.
Proof.
  unfold handleDragEnd. destruct (over event); [|done].
  destruct (decide _); [|done]. by destruct (arrayMove _ _ _).
Qed.

Lemma handleDragEnd_HoldsUndefined cards event :
  handleDragEnd cards event = HoldsUndefined
  ↔ cards = [] ∧ ∃ b, over event = Some b ∧ active event ≠ b.
Proof.
  split.
  - intros H. destruct cards as [|c0 cards0].
    + split; [done|]. unfold handleDragEnd in H.
      destruct (over event) as [b|]; [|done]. exists b. split; [done|].
      by destruct (decide (active event ≠ b)).
    + destruct (handleDragEnd_Permutation (c0 :: cards0) event) as (r & Hr & _);
        [done|]. congruence.
  - intros (-> & b & Hb & Hab). unfold handleDragEnd. rewrite Hb.
    by rewrite decide_True.
Qed.

(** X14 (ProfilePage, lines 633-732).  No handler of the page throws; the only
    event that does not leave a store of cards is a drag-end with a drop
    target and two different ids on a store without cards, where [arrayMove]
    puts [undefined] in the array. *)
Theorem step_failure p e :
  step p e ≠ TypeError
  ∧ (step p e = HoldsUndefined
     ↔ cards p = []
       ∧ ∃ event b, e = DragEnd event ∧ over event = Some b ∧ active event ≠ b).
Proof.
  destruct e as [w|card_id current|card_id|random36|event]; cbn;
    try (split; [done|]; split; [done|]; by intros (_ & ? & ? & ? & _)).
  pose proof (handleDragEnd_not_TypeError (cards p) event) as Hte.
  pose proof (handleDragEnd_HoldsUndefined (cards p) event) as Hhu.
  destruct (handleDragEnd (cards p) event) as [items| |]; [| |done].
  - split; [done|]. split; [done|].
    intros (Hc & ev & b & [= <-] & Hb & Hab).
    discriminate (proj2 Hhu (conj Hc (ex_intro _ b (conj Hb Hab)))).
  - split; [done|]. split; [|done].
    intros _. destruct (proj1 Hhu eq_refl) as (Hc & b & Hb & Hab). eauto 6.
Qed.

Lemma run_app p events events' :
  run p (events ++ events')
  = match run p events with
    | Ok p' => run p' events'
    | HoldsUndefined => HoldsUndefined
    | TypeError => TypeError
    end.
Proof.
  revert p. induction events as [|e events IH]; intros p; [done|].
  cbn. destruct (step p e); [apply IH|done..].
Qed.

Lemma updateGridSize_monotone w1 w2 :
  w1 ≤ w2 →
  ∃ k1 k2, updateGridSize w1 = grid k1 16 ∧ updateGridSize w2 = grid k2 16
           ∧ 1 ≤ k1 ≤ k2 ∧ k2 ≤ 3.
Proof.
  intros Hw. unfold updateGridSize.
  destruct (Z.leb_spec 1024 w1), (Z.leb_spec 1024 w2),
    (Z.leb_spec 640 w1), (Z.leb_spec 640 w2);
    try lia; eexists; eexists; (split; [done|]); (split; [done|]); lia.
Qed.

Lemma step_gridSize p e p' :
  (∃ k, gridSize p = grid k 16 ∧ 1 ≤ k ≤ 3) → step p e = Ok p' →
  ∃ k, gridSize p' = grid k 16 ∧ 1 ≤ k ≤ 3.
Proof.
  intros Hp. destruct e as [w|card_id current|card_id|random36|event]; cbn.
  - intros [= <-]. apply updateGridSize_columns.
  - by intros [= <-].
  - by intros [= <-].
  - by intros [= <-].
  - destruct (handleDragEnd _ _); [|done..]. by intros [= <-].
Qed.

(** X15 (updateGridSize, lines 644-663).  The grid of every reachable page
    has 1, 2 or 3 columns and a gap of 16; the number of columns the
    window width gives grows with the width; and after a window-resize event
    the grid is the one of the new width, whatever came before. *)
Theorem gridSize_bands :
  (∀ p, reachable p → ∃ k, gridSize p = grid k 16 ∧ 1 ≤ k ≤ 3)
  ∧ (∀ w1 w2, w1 ≤ w2 →
       ∃ k1 k2, updateGridSize w1 = grid k1 16 ∧ updateGridSize w2 = grid k2 16
                ∧ 1 ≤ k1 ≤ k2 ∧ k2 ≤ 3)
  ∧ (∀ p innerWidth p',
       step p (WindowResize innerWidth) = Ok p' →
       gridSize p' = updateGridSize innerWidth ∧ cards p' = cards p).
Proof.
  split_and!.
  - intros p [events Hrun].
    assert (∀ events q q', (∃ k, gridSize q = grid k 16 ∧ 1 ≤ k ≤ 3) →
              run q events = Ok q' → ∃ k, gridSize q' = grid k 16 ∧ 1 ≤ k ≤ 3) as Hinv.
    { clear. induction events as [|e events IH]; intros q q' Hq; cbn.
      - by intros [= <-].
      - destruct (step q e) as [q1| |] eqn:Hstep; [|done..].
        apply IH. by eapply step_gridSize. }
    apply (Hinv events initialPage p); [|done]. exists 3. split; [done|lia].
  - apply updateGridSize_monotone.
  - intros p innerWidth p'. cbn. by intros [= <-].
Qed.

Lemma gridSize_bands_witness :
  640 ≤ 1280
  ∧ ∃ k1 k2, updateGridSize 640 = grid k1 16 ∧ updateGridSize 1280 = grid k2 16
             ∧ 1 ≤ k1 ≤ k2 ∧ k2 ≤ 3.
Proof.
  assert (640 ≤ 1280) as H by lia.
  split; [exact H|]. exact (proj1 (proj2 gridSize_bands) 640 1280 H).
Defined.

Lemma step_committed_span p e p' :
  measured e →
  (∃ k, gridSize p = grid k 16 ∧ 1 ≤ k ≤ 3) →
  Forall committed_span (cards p) → step p e = Ok p' →
  Forall committed_span (cards p').
Proof.
  intros He (k & Hg & Hk) Hp.
  destruct e as [w|card_id current|card_id|random36|event]; cbn.
  - by intros [= <-].
  - intros [= <-]. cbn. destruct current as [el|]; [|done].
    unfold handleMouseUp, handleResizeCard. apply Forall_fmap.
    eapply Forall_impl; [exact Hp|]. intros card Hc. cbn.
    destruct (decide _); [|done]. rewrite Hg.
    destruct (calculateGridSpan_bounds k 16 (offsetWidth el) (parentOffsetWidth el))
      as (z & Hz & Hrange); [done|lia..|].
    exists z. cbn. rewrite Hz. split; [done|lia].
  - intros [= <-]. cbn. apply Forall_forall. intros card Hc.
    apply list_elem_of_filter in Hc as [_ Hc].
    by apply (proj1 (Forall_forall _ _) Hp).
  - intros [= <-]. cbn. unfold handleDuplicateCard.
    destruct (cards p) as [|firstCard rest] eqn:Hcards; [done|].
    apply Forall_app. split; [done|]. constructor; [|done].
    by apply Forall_cons in Hp as [? _].
  - destruct (handleDragEnd (cards p) event) as [items| |] eqn:Hdrag; [|done..].
    intros [= <-]. cbn. unfold handleDragEnd in Hdrag.
    destruct (over event) as [over_id|]; [|by injection Hdrag as <-].
    destruct (decide _); [|by injection Hdrag as <-].
    destruct (arrayMove _ _ _) as [items'|] eqn:Hmove; [|done].
    injection Hdrag as <-. apply arrayMove_Permutation in Hmove.
    by rewrite Hmove.
Qed.

(** X16 (calculateGridSpan, handleMouseUp, handleResizeCard, updateGridSize;
    lines 419-436, 472-489, 644-663, 689-693).  Whatever the user does, as
    long as the DOM reports widths that are not negative, every card of the
    page has a column span that is an integer from 1 to 3, the largest
    column count of the grid. *)
Theorem reachable_spans_within_three events p :
  Forall measured events → run initialPage events = Ok p →
  Forall committed_span (cards p).
Proof.
  assert (∀ events q q',
            Forall measured events →
            (∃ k, gridSize q = grid k 16 ∧ 1 ≤ k ≤ 3) →
            Forall committed_span (cards q) → run q events = Ok q' →
            Forall committed_span (cards q')) as Hinv.
  { clear. induction events as [|e events IH]; intros q q' Hev Hg Hq; cbn.
    - by intros [= <-].
    - apply Forall_cons in Hev as [He Hev].
      destruct (step q e) as [q1| |] eqn:Hstep; [|done..].
      apply IH; [done| |].
      + by eapply step_gridSize.
      + by eapply step_committed_span. }
  intros Hev. apply Hinv; [done| |].
  - exists 3. split; [done|lia].
  - repeat constructor; (exists 1; split; [done|lia]).
Qed.

Lemma reachable_spans_within_three_witness :
  Forall measured [ WindowResize 1280;
                    MouseUp "1" (Some (mkElement 600 200 (Some 720)));
                    WindowResize 500 ]
  ∧ run initialPage [ WindowResize 1280;
                      MouseUp "1" (Some (mkElement 600 200 (Some 720)));
                      WindowResize 500 ]
    = Ok (mkPage (grid 1 16)
            (handleResizeCard initialCards "1" (of_Z 600) (of_Z 200) (of_Z 3)))
  ∧ Forall committed_span
      (handleResizeCard initialCards "1" (of_Z 600) (of_Z 200) (of_Z 3)).
Proof.
  assert (Forall measured [ WindowResize 1280;
                            MouseUp "1" (Some (mkElement 600 200 (Some 720)));
                            WindowResize 500 ]) as Hm.
  { repeat constructor. cbn. lia. }
  assert (run initialPage [ WindowResize 1280;
                            MouseUp "1" (Some (mkElement 600 200 (Some 720)));
                            WindowResize 500 ]
          = Ok (mkPage (grid 1 16)
                  (handleResizeCard initialCards "1" (of_Z 600) (of_Z 200) (of_Z 3))))
    as Hrun by (vm_compute; reflexivity).
  split; [exact Hm|]. split; [exact Hrun|].
  exact (reachable_spans_within_three _ _ Hm Hrun).
Defined.

End PageInvariants.

(** ** The resize gesture *)

Section Gestures.

Implicit Types (e : MouseEvent) (current : option V2.Element)
  (moves : list (MouseEvent * option V2.Element)).

(** The pixel length a mouse move computes from a start length, the start
    coordinate and the pointer's coordinate (lines 65-66 and 463-464). *)
Lemma live_length_floor (start from to : Q) :
  ∃ q : Q,
    Js.max (of_Z 150) (Js.add (Fin start) (Js.sub (Fin to) (Fin from))) = Fin q
    ∧ (inject_Z 150 <= q)%Q.
Proof.
  cbn [Js.sub Js.add]. unfold Js.max, of_Z, Js.leb.
  destruct (Qle_bool (inject_Z 150) (start + (to - from))) eqn:Hle.
  - eexists. split; [done|]. by apply Qle_bool_iff.
  - eexists. split; [done|]. apply Qle_refl.
Qed.

Lemma V2_moves_last (s : V2Card.Card) moves e el :
  V2Card.isResizing s = true →
  V2Card.run s ((λ m, DocumentMouseMove m.1 m.2) <$> moves ++ [(e, Some el)])
  = V2Card.handleMouseMove e (Some el)
      (V2Card.run s ((λ m, DocumentMouseMove m.1 m.2) <$> moves))
  ∧ V2Card.initialPos (V2Card.run s ((λ m, DocumentMouseMove m.1 m.2) <$> moves))
    = V2Card.initialPos s
  ∧ V2Card.initialSize (V2Card.run s ((λ m, DocumentMouseMove m.1 m.2) <$> moves))
    = V2Card.initialSize s
  ∧ V2Card.isResizing (V2Card.run s ((λ m, DocumentMouseMove m.1 m.2) <$> moves))
    = true.
Proof.
  intros Hs. unfold V2Card.run. rewrite fmap_app, foldl_app. cbn [fmap list_fmap foldl].
  assert (∀ t, V2Card.isResizing t = true →
            V2Card.isResizing (foldl V2Card.step t
                                 ((λ m, DocumentMouseMove m.1 m.2) <$> moves)) = true
            ∧ V2Card.initialPos (foldl V2Card.step t
                                   ((λ m, DocumentMouseMove m.1 m.2) <$> moves))
              = V2Card.initialPos t
            ∧ V2Card.initialSize (foldl V2Card.step t
                                    ((λ m, DocumentMouseMove m.1 m.2) <$> moves))
              = V2Card.initialSize t) as Hinv.
  { induction moves as [|[e' cur'] moves IH]; intros t Ht; [done|].
    cbn [fmap list_fmap foldl V2Card.step fst snd]. rewrite Ht.
    destruct (IH (V2Card.handleMouseMove e' cur' t)) as (H1 & H2 & H3).
    { by destruct cur'. }
    rewrite H1, H2, H3. by destruct cur'. }
  destruct (Hinv s Hs) as (H1 & H2 & H3).
  cbn [V2Card.step]. by rewrite H1.
Qed.

(** X17 (SortableCard, second version: handleResizeStart, handleMouseMove,
    handleMouseUp; lines 439-500).  During a resize the live size of the card
    follows the pointer, not its path: after the handle is pressed at pointer
    position [e0] on a card of [offsetWidth] x [offsetHeight], and after any
    mouse moves ending with one at [e], the live width is
    max (150, offsetWidth + (e.clientX - e0.clientX)) and the live height
    likewise; for finite coordinates neither is below 150; releasing the
    mouse keeps that size and ends the resize; and while no resize is in
    progress document mouse moves and mouse-ups change nothing. *)
Theorem V2_live_size_follows_pointer :
  (∀ (s : V2Card.Card) e0 el0 moves e el current,
     let s' :=
       V2Card.run s
         (MouseDownOnHandle e0 (Some el0)
          :: ((λ m, DocumentMouseMove m.1 m.2) <$> moves ++ [(e, Some el)])) in
     V2Card.liveSize s'
     = Some (Js.max (of_Z 150)
               (Js.add (of_Z (V2.offsetWidth el0)) (Js.sub (clientX e) (clientX e0))),
             Js.max (of_Z 150)
               (Js.add (of_Z (V2.offsetHeight el0)) (Js.sub (clientY e) (clientY e0))))
     ∧ V2Card.isResizing s' = true
     ∧ V2Card.liveSize (V2Card.step s' (DocumentMouseUp current)) = V2Card.liveSize s'
     ∧ V2Card.isResizing (V2Card.step s' (DocumentMouseUp current)) = false)
  ∧ (∀ (w0 x0 x : Q),
       ∃ q : Q,
         Js.max (of_Z 150) (Js.add (Fin w0) (Js.sub (Fin x) (Fin x0))) = Fin q
         ∧ (inject_Z 150 <= q)%Q)
  ∧ (∀ (s : V2Card.Card) e current,
       V2Card.isResizing s = false →
       V2Card.step s (DocumentMouseMove e current) = s
       ∧ V2Card.step s (DocumentMouseUp current) = s).
Proof.
  split_and!.
  - intros s e0 el0 moves e el current.
    set (events := MouseDownOnHandle e0 (Some el0) :: _).
    assert (V2Card.run s events
            = V2Card.mkCard true (clientX e0, clientY e0)
                (of_Z (V2.offsetWidth el0), of_Z (V2.offsetHeight el0))
                (Some (Js.max (of_Z 150)
                         (Js.add (of_Z (V2.offsetWidth el0))
                            (Js.sub (clientX e) (clientX e0))),
                       Js.max (of_Z 150)
                         (Js.add (of_Z (V2.offsetHeight el0))
                            (Js.sub (clientY e) (clientY e0)))))) as ->.
    { subst events. unfold V2Card.run.
      cbn [foldl V2Card.step V2Card.handleResizeStart].
      set (s0 := V2Card.mkCard true _ _ _).
      fold (V2Card.run s0
              ((λ m, DocumentMouseMove m.1 m.2) <$> moves ++ [(e, Some el)])).
      destruct (V2_moves_last s0 moves e el eq_refl) as (-> & Hpos & Hsize & Hres).
      unfold V2Card.handleMouseMove. by rewrite Hpos, Hsize, Hres. }
    cbv zeta. by cbn.
  - intros. apply live_length_floor.
  - intros s e current Hs. cbn. by rewrite Hs.
Qed.

Lemma V2_live_size_follows_pointer_witness :
  V2Card.isResizing (V2Card.mkCard false (of_Z 0, of_Z 0) (of_Z 0, of_Z 0) None) = false
  ∧ V2Card.step (V2Card.mkCard false (of_Z 0, of_Z 0) (of_Z 0, of_Z 0) None)
      (DocumentMouseMove (mkMouse (of_Z 10) (of_Z 10)) None)
    = V2Card.mkCard false (of_Z 0, of_Z 0) (of_Z 0, of_Z 0) None.
Proof.
  split; [reflexivity|].
  exact (proj1 (proj2 (proj2 V2_live_size_follows_pointer)
                  (V2Card.mkCard false (of_Z 0, of_Z 0) (of_Z 0, of_Z 0) None)
                  (mkMouse (of_Z 10) (of_Z 10)) None eq_refl)).
Defined.

Lemma V1_moves_ignored (s : V1Card.Card) e current :
  Forall (λ captured, captured = false) (V1Card.listeners s) →
  V1Card.step s (DocumentMouseMove e current) = s.
Proof.
  cbn [V1Card.step]. generalize (V1Card.listeners s).
  intros l. revert s. induction l as [|captured l IH]; intros s Hl; [done|].
  apply Forall_cons in Hl as [-> Hl]. cbn [foldl].
  replace (V1Card.handleMouseMove false e current s) with s
    by (unfold V1Card.handleMouseMove; by destruct current).
  by apply IH.
Qed.

(** X18 (SortableCard, first version: handleResizeStart, handleMouseMove,
    handleMouseUp; lines 48-90).  In the first version a resize that starts
    while none is in progress never changes the live size of the card: the
    mouse-move listener tests the [isResizing] of the render in which the
    handle was pressed, which is false.  After the handle is pressed and the
    mouse moved in any way the live size is what it was, the release keeps it,
    and the card is again in a state with no resize in progress and no
    listener on the document. *)
Theorem V1_resize_never_changes_live_size (s : V1Card.Card) e0 current0 moves current :
  V1Card.isResizing s = false → V1Card.listeners s = [] →
  let s' :=
    V1Card.run s (MouseDownOnHandle e0 current0
                  :: ((λ m, DocumentMouseMove m.1 m.2) <$> moves)) in
  V1Card.liveSize s' = V1Card.liveSize s
  ∧ V1Card.liveSize (V1Card.step s' (DocumentMouseUp current)) = V1Card.liveSize s
  ∧ V1Card.isResizing (V1Card.step s' (DocumentMouseUp current)) = false
  ∧ V1Card.listeners (V1Card.step s' (DocumentMouseUp current)) = [].
Proof.
  intros Hs Hl. cbv zeta. unfold V1Card.run. cbn [foldl].
  set (s0 := V1Card.step s (MouseDownOnHandle e0 current0)).
  assert (Forall (λ captured, captured = false) (V1Card.listeners s0)
          ∧ V1Card.liveSize s0 = V1Card.liveSize s) as [Hl0 Hlive0].
  { subst s0. cbn. destruct current0 as [el|]; cbn; rewrite Hl, ?Hs;
      (split; [by repeat constructor|done]). }
  assert (foldl V1Card.step s0 ((λ m, DocumentMouseMove m.1 m.2) <$> moves) = s0) as ->.
  { induction moves as [|[e' cur'] moves IH]; [done|].
    cbn [fmap list_fmap foldl fst snd]. by rewrite V1_moves_ignored. }
  split; [done|]. cbn [V1Card.step]. unfold V1Card.handleMouseUp.
  destruct (V1Card.listeners s0) eqn:Hls.
  - subst s0. cbn in *. destruct current0; cbn in *.
    + by destruct (V1Card.listeners s).
    + by rewrite Hs, Hl.
  - by cbn.
Qed.

Lemma V1_resize_never_changes_live_size_witness :
  let s := V1Card.mkCard false (of_Z 0, of_Z 0) (of_Z 0, of_Z 0) None [] in
  V1Card.isResizing s = false ∧ V1Card.listeners s = []
  ∧ V1Card.liveSize
      (V1Card.run s [ MouseDownOnHandle (mkMouse (of_Z 400) (of_Z 300))
                        (Some (V2.mkElement 300 200 (Some 720)));
                      DocumentMouseMove (mkMouse (of_Z 500) (of_Z 350))
                        (Some (V2.mkElement 300 200 (Some 720))) ])
    = None.
Proof.
  cbv zeta. split; [reflexivity|]. split; [reflexivity|].
  exact (proj1 (V1_resize_never_changes_live_size
                  (V1Card.mkCard false (of_Z 0, of_Z 0) (of_Z 0, of_Z 0) None [])
                  (mkMouse (of_Z 400) (of_Z 300))
                  (Some (V2.mkElement 300 200 (Some 720)))
                  [(mkMouse (of_Z 500) (of_Z 350),
                    Some (V2.mkElement 300 200 (Some 720)))]
                  None eq_refl eq_refl)).
Defined.

End Gestures.

(** ** Repeated duplication *)

Section RepeatedDuplication.

Import V2.

(** X19 (handleDuplicateCard, lines 696-707).  Duplication always copies the
    first card of the store, never a copy: after any number of duplications
    of a store that has cards, the store is the original one followed, in
    the order of the clicks, by one card per click that has the fields of
    the original first card, its title with " (Copy)" appended once, and the
    id generated for that click; a store without cards stays without cards. *)
Theorem handleDuplicateCard_repeated :
  (∀ firstCard rest draws,
     foldl handleDuplicateCard (firstCard :: rest) draws
     = (firstCard :: rest)
       ++ ((λ random36,
              mkCard (generateId random36) (type firstCard)
                (title firstCard +:+ " (Copy)") (subtitle firstCard)
                (buttonText firstCard) (buttonUrl firstCard) (imageUrl firstCard)
                (width firstCard) (height firstCard) (gridColumn firstCard)
                (gridRow firstCard)) <$> draws))
  ∧ (∀ draws, foldl handleDuplicateCard [] draws = []).
Proof.
  split.
  - intros firstCard rest draws. revert rest.
    induction draws as [|random36 draws IH]; intros rest.
    + by rewrite app_nil_r.
    + cbn [foldl fmap list_fmap]. unfold handleDuplicateCard at 2.
      change ((firstCard :: rest) ++ ?l) with (firstCard :: (rest ++ l)).
      rewrite IH. cbn [app]. by rewrite <- (assoc_L (++)).
  - induction draws as [|random36 draws IH]; [done|]. exact IH.
Qed.

End RepeatedDuplication.
